(** * The SDG geometry solver and the validation pipeline, embedded in Rocq

    The development follows [solver_sdg.py] and [validation_pipeline.py].

    Number model.  The solver works on JAX floating-point arrays.  In
    [SolverSdg] a real-valued array cell is an exact real number of [R]
    and a complex cell a pair of reals: every statement there is about
    the arithmetic the code writes down, carried out exactly on finite
    values, and rounding and overflow are outside the model.  Cells that
    are NaN or infinite, which the arrays can hold, are the subject of
    [SolverSdgIeee]: it embeds [solve_sdg_geometry] on the loaded values
    [fval] of the validator, and agrees with [SolverSdg] on finite
    cells.  The validator distinguishes NaN and infinities explicitly,
    so its model uses [fval] throughout.

    Array model.  A 2-D array is a list of rows (axis 0 is the outer
    list, axis 1 the inner one).  A stack of arrays (the 4x4xNxM tensors)
    is a list of lists of grids with the tensor axes outermost, as in
    the code after [moveaxis].

    Exceptions are values: a function that can raise returns a
    [result]. *)

From Stdlib Require Import Reals Lra List ZArith Lia.
From stdpp Require Import list gmap strings.
Import ListNotations.

Open Scope R_scope.

(** ** Python exceptions as values *)

Inductive exn : Type :=
| ZeroDivisionError
| ValueError
| TypeError
| IndexError
| FileNotFoundError
| OSError.

Inductive result (A : Type) : Type :=
| Ok (a : A)
| Raise (e : exn).

Arguments Ok {A} a.
Arguments Raise {A} e.

#[global] Instance result_ret : MRet result := fun A a => Ok a.

#[global] Instance result_bind : MBind result := fun A B k c =>
  match c with
  | Ok a => k a
  | Raise e => Raise e
  end.

(** ** Arrays *)

Module Np.

Definition grid (A : Type) : Type := list (list A).

(** [x.shape] of a 2-D array. *)
Definition shape {A : Type} (x : grid A) : nat * nat :=
  (length x, length (nth 0 x [])).

(** An n-by-m array: every row has m cells. *)
Definition rectangular {A : Type} (n m : nat) (x : grid A) : Prop :=
  length x = n /\ Forall (fun row => length row = m) x.

(** [x[i, j]], read with a default cell. *)
Definition get {A : Type} (d : A) (x : grid A) (i j : nat) : A :=
  nth j (nth i x []) d.

Definition at2 (x : grid R) (i j : nat) : R := get 0 x i j.

Definition tabulate {A : Type} (n : nat) (f : nat -> A) : list A :=
  map f (seq 0 n).

Definition tabulate2 {A : Type} (n m : nat) (f : nat -> nat -> A) : grid A :=
  tabulate n (fun i => tabulate m (f i)).

Definition grid_map {A B : Type} (f : A -> B) (x : grid A) : grid B :=
  map (map f) x.

(** Elementwise binary operation on two arrays of one shape. *)
Definition grid_map2 {A B C : Type} (f : A -> B -> C)
    (x : grid A) (y : grid B) : grid C :=
  zip_with (zip_with f) x y.

(** [jnp.roll(l, shift)] along the axis of a 1-D array: the array is
    doubled and a window of its length is cut out at offset
    [n - shift mod n]; an empty array is returned as it is. *)
Definition roll {A : Type} (l : list A) (shift : Z) : list A :=
  let n := length l in
  match n with
  | O => l
  | _ => take n (drop (n - Z.to_nat (shift mod Z.of_nat n)) (l ++ l))
  end.

(** [jnp.roll(x, shift, axis=0)] and [jnp.roll(x, shift, axis=1)]. *)
Definition roll_axis0 {A : Type} (x : grid A) (shift : Z) : grid A :=
  roll x shift.

Definition roll_axis1 {A : Type} (x : grid A) (shift : Z) : grid A :=
  map (fun row => roll row shift) x.

Definition sum_list (l : list R) : R := fold_right Rplus 0 l.

Definition grid_sum (x : grid R) : R := sum_list (map sum_list x).

(** [x.size] and [jnp.mean(x)]. *)
Definition size {A : Type} (x : grid A) : nat := length (concat x).

Definition mean (x : grid R) : R := grid_sum x / INR (size x).

(** The index [i] wrapped onto [0..n-1], as Python's [i % n]. *)
Definition wrap (n : nat) (i : Z) : nat := Z.to_nat (i mod Z.of_nat n).

(** Complex cells: (real part, imaginary part). *)
Definition C : Type := (R * R)%type.

Definition Cplus (a b : C) : C := (a.1 + b.1, a.2 + b.2).
Definition Cminus (a b : C) : C := (a.1 - b.1, a.2 - b.2).
Definition Cmult (a b : C) : C :=
  (a.1 * b.1 - a.2 * b.2, a.1 * b.2 + a.2 * b.1).
(** A real number times a complex one. *)
Definition Cscale (r : R) (a : C) : C := (r * a.1, r * a.2).
Definition RtoC (r : R) : C := (r, 0).

(** [jnp.abs(z)] and [jnp.angle(z)] of a complex cell. *)
Definition Cabs (z : C) : R := sqrt (z.1 * z.1 + z.2 * z.2).

Definition arctan2 (y x : R) : R :=
  if Rlt_dec 0 x then atan (y / x)
  else if Rlt_dec x 0 then
    (if Rle_dec 0 y then atan (y / x) + PI else atan (y / x) - PI)
  else if Rlt_dec 0 y then PI / 2
  else if Rlt_dec y 0 then - (PI / 2)
  else 0.

Definition angle (z : C) : R := arctan2 z.2 z.1.

(** What [jnp.gradient] needs of the cells of an array: a difference,
    a product with a real and a quotient by a real.  Rows of cells are
    cells of the array of rows, so that one definition serves both
    axes. *)
Class VecOps (V : Type) : Type := {
  vsub : V -> V -> V;
  vmul : V -> R -> V;
  vdiv : V -> R -> V
}.

#[global] Instance R_vec : VecOps R :=
  {| vsub := Rminus; vmul := Rmult; vdiv := Rdiv |}.

#[global] Instance C_vec : VecOps C :=
  {| vsub := Cminus;
     vmul := fun z r => (z.1 * r, z.2 * r);
     vdiv := fun z r => (z.1 / r, z.2 / r) |}.

#[global] Instance list_vec {V : Type} `{VecOps V} : VecOps (list V) :=
  {| vsub := zip_with vsub;
     vmul := fun l r => map (fun v => vmul v r) l;
     vdiv := fun l r => map (fun v => vdiv v r) l |}.

(** [lax.slice_in_dim(l, a, b)], the slice [l[a:b]] for [a <= b]. *)
Definition sliced {A : Type} (l : list A) (a b : nat) : list A :=
  take (b - a) (drop a l).

(** [gradient_along_axis(a, h, axis)] of [jnp.gradient]: a one-sided
    difference at each end, half the difference of the two neighbours
    in between, all divided by the spacing. *)
Definition gradient_along_axis {V : Type} `{VecOps V}
    (a : list V) (h : R) : list V :=
  let n := length a in
  let upper_edge := zip_with vsub (sliced a 1 2) (sliced a 0 1) in
  let lower_edge :=
    zip_with vsub (sliced a (n - 1) n) (sliced a (n - 2) (n - 1)) in
  let inner :=
    map (fun d => vmul d 0.5)
      (zip_with vsub (sliced a 2 n) (sliced a 0 (n - 2))) in
  map (fun d => vdiv d h) (upper_edge ++ inner ++ lower_edge).

(** The difference quotient [jnp.gradient] forms at index [i] of an
    axis of [n] cells read through [f]: one-sided at both ends, half
    the difference of the two neighbours in between. *)
Definition edge_difference {V : Type} `{VecOps V}
    (f : nat -> V) (n i : nat) (h : R) : V :=
  vdiv (if (i =? 0)%nat then vsub (f 1%nat) (f 0%nat)
        else if (i =? (n - 1))%nat then vsub (f (n - 1)%nat) (f (n - 2)%nat)
        else vmul (vsub (f (i + 1)%nat) (f (i - 1)%nat)) 0.5) h.

(** The central difference with periodic wrap the specification
    names: the two neighbours are taken modulo the axis length. *)
Definition periodic_central_difference
    (f : nat -> R) (n i : nat) (h : R) : R :=
  (f (wrap n (Z.of_nat i + 1)) - f (wrap n (Z.of_nat i - 1))) / (2 * h).

(** [jnp.gradient(x, h, axis=0)] and [jnp.gradient(x, h, axis=1)]: an
    axis shorter than 2 raises ValueError. *)
Definition gradient_axis0 {V : Type} `{VecOps V}
    (x : grid V) (h : R) : result (grid V) :=
  if (fst (shape x) <? 2)%nat then Raise ValueError
  else Ok (gradient_along_axis x h).

Definition gradient_axis1 {V : Type} `{VecOps V}
    (x : grid V) (h : R) : result (grid V) :=
  if (snd (shape x) <? 2)%nat then Raise ValueError
  else Ok (map (fun row => gradient_along_axis row h) x).

(** [jnp.gradient(x)]: both axes with spacing 1, axis 0 first. *)
Definition gradient {V : Type} `{VecOps V}
    (x : grid V) : result (grid V * grid V) :=
  if (Nat.min (fst (shape x)) (snd (shape x)) <? 2)%nat then Raise ValueError
  else Ok (gradient_along_axis x 1,
           map (fun row => gradient_along_axis row 1) x).

(** [jnp.moveaxis(t, (2, 3), (0, 1))] of an N x M x a x b array and
    [jnp.moveaxis(t, (0, 1), (2, 3))] of an a x b x N x M array. *)
Definition moveaxis_23_01 {A : Type} (d : A) (a b : nat)
    (t : grid (list (list A))) : list (list (grid A)) :=
  tabulate2 a b (fun i j => grid_map (fun cell => nth j (nth i cell []) d) t).

Definition moveaxis_01_23 {A : Type} (d : A)
    (t : list (list (grid A))) : grid (list (list A)) :=
  let '(n, m) := shape (nth 0 (nth 0 t []) []) in
  tabulate2 n m (fun x y =>
    map (map (fun comp => nth y (nth x comp []) d)) t).

Definition Csum (l : list C) : C := fold_right Cplus (RtoC 0) l.

(** [jnp.stack([a, b], axis=-1)] of two arrays of one shape; applied to
    two stacks it is [jnp.stack([a, b], axis=-2)]. *)
Definition stack2 {A : Type} (a b : grid A) : grid (list A) :=
  grid_map2 (fun u v => [u; v]) a b.

Definition grid_map3 {A B C D : Type} (f : A -> B -> C -> D)
    (x : grid A) (y : grid B) (z : grid C) : grid D :=
  grid_map2 (fun p c => f p.1 p.2 c) (grid_map2 pair x y) z.

(** A small matrix read with the default 0. *)
Definition entry (m : list (list R)) (i j : nat) : R := nth j (nth i m []) 0.

(** [jnp.linalg.inv] of a 2x2 matrix. *)
Definition inv (m : list (list R)) : list (list R) :=
  let det := entry m 0 0 * entry m 1 1 - entry m 0 1 * entry m 1 0 in
  [[entry m 1 1 / det; - entry m 0 1 / det];
   [- entry m 1 0 / det; entry m 0 0 / det]].

(** The list without its [j]-th element. *)
Definition without {A : Type} (j : nat) (l : list A) : list A :=
  take j l ++ drop (S j) l.

(** [jnp.linalg.det]: expansion along the first row. *)
Fixpoint det_rows (k : nat) (m : list (list R)) : R :=
  match k, m with
  | S k', row :: rest =>
      sum_list
        (imap (fun j a => (-1) ^ j * a * det_rows k' (map (without j) rest))
              row)
  | _, _ => 1
  end.

Definition det (m : list (list R)) : R := det_rows (length m) m.

(** [jnp.arange(n)]. *)
Definition arange (n : nat) : list Z := map Z.of_nat (seq 0 n).

(** [1.0 / k] for a Python integer [k]. *)
Definition py_inverse (k : Z) : result R :=
  if (k =? 0)%Z then Raise ZeroDivisionError else Ok (1 / IZR k).

End Np.

Import Np.

(** ** solver_sdg.py *)

Module SolverSdg.

(** The body of the loop of [_jacobi_poisson_solver] (lines 21-26). *)
Definition jacobi_sweep (source x : grid R) (d_sq omega : R) : grid R :=
  let x_new :=
    grid_map (fun v => v / 4)
      (grid_map2 Rplus
        (grid_map2 Rplus
          (grid_map2 Rplus
            (grid_map2 Rplus (roll_axis0 x 1) (roll_axis0 x (-1)))
            (roll_axis1 x 1))
          (roll_axis1 x (-1)))
        (grid_map (fun s => s * d_sq) source)) in
  grid_map2 Rplus
    (grid_map (fun v => (1 - omega) * v) x)
    (grid_map (fun v => omega * v) x_new).

(** [_jacobi_poisson_solver(source, x, dx, iterations, omega)]. *)
Definition _jacobi_poisson_solver (source x : grid R) (dx : R)
    (iterations : nat) (omega : R) : grid R :=
  let d_sq := dx * dx in
  (fix loop (k : nat) (x : grid R) : grid R :=
     match k with
     | O => x
     | S k' => loop k' (jacobi_sweep source x d_sq omega)
     end) iterations x.

(** [calculate_informational_stress_energy(Psi, sdg_kappa, sdg_eta)].
    The tensor is built in the layout N x M x 4 x 4, its [0,0] slot is
    set, and the tensor axes are moved to the front. *)
Definition calculate_informational_stress_energy
    (Psi : grid C) (sdg_kappa sdg_eta : R) : result (list (list (grid C))) :=
  let rho := grid_map (fun z => Cabs z ^ 2) Psi in
  let phi := grid_map angle Psi in
  '(grad_phi_y, grad_phi_x) ← gradient phi;
  '(grad_rho_y, grad_rho_x) ←
    gradient (grid_map (fun r => sqrt (Rmax r 1e-9)) rho);
  let sq := grid_map (fun v : R => v ^ 2) in
  let T_00 :=
    grid_map2 Rplus
      (grid_map2 Rmult
        (grid_map (fun r => sdg_kappa * r) rho)
        (grid_map2 Rplus (sq grad_phi_x) (sq grad_phi_y)))
      (grid_map (fun v => sdg_eta * v)
        (grid_map2 Rplus (sq grad_rho_x) (sq grad_rho_y))) in
  let T_info := grid_map (fun _ => repeat (repeat (RtoC 0) 4) 4) Psi in
  let T_info :=
    grid_map2
      (fun cell v => <[0%nat := <[0%nat := RtoC v]> (nth 0 cell [])]> cell)
      T_info T_00 in
  mret (moveaxis_23_01 (RtoC 0) 4 4 T_info).

(** The [0,0] component the specification gives for the cell
    [(i, j)] of an n-by-m field, for a choice [diff] of the difference
    quotient along an axis: kappa * rho * |grad phi|^2 +
    eta * |grad sqrt(max(rho, 1e-9))|^2. *)
Definition stress_energy_00 (diff : (nat -> R) -> nat -> nat -> R -> R)
    (n m : nat) (Psi : grid C) (kappa eta : R) (i j : nat) : R :=
  let rho x y := Cabs (get (RtoC 0) Psi x y) ^ 2 in
  let phi x y := angle (get (RtoC 0) Psi x y) in
  let amp x y := sqrt (Rmax (rho x y) 1e-9) in
  kappa * rho i j
    * (diff (fun y => phi i y) m j 1 ^ 2 + diff (fun x => phi x j) n i 1 ^ 2)
  + eta
    * (diff (fun y => amp i y) m j 1 ^ 2 + diff (fun x => amp x j) n i 1 ^ 2).

(** [jnp.clip(x, lo, None)] on finite cells; a NaN cell passes through
    the clip, see [SolverSdgIeee.clip_min]. *)
Definition clip_min (x : grid R) (lo : R) : grid R :=
  grid_map (fun v => Rmax v lo) x.

(** [jnp.diag(v)]. *)
Definition diag (v : list R) : grid R :=
  tabulate2 (length v) (length v)
    (fun a b => if (a =? b)%nat then nth a v 0 else 0).

(** [jnp.einsum('ab,xy->abxy', eta, scale)] on finite cells; for an
    infinite or NaN scale see [SolverSdgIeee.einsum_ab_xy]. *)
Definition einsum_ab_xy (eta scale : grid R) : list (list (grid R)) :=
  grid_map (fun e => grid_map (fun s => e * s) scale) eta.

(** The signature matrix diag(-1, 1, 1, 1) of the specification, entry
    by entry. *)
Definition minkowski (a b : nat) : R :=
  if (a =? b)%nat then (if (a =? 0)%nat then -1 else 1) else 0.

(** [T_info[0, 0]]. *)
Definition index_00 {A : Type} (t : list (list A)) : result A :=
  match t with
  | (a :: _) :: _ => Ok a
  | _ => Raise IndexError
  end.

Section Geometry.

(** The floating-point power [x ** y] is left open: it is not a
    function of this repository, and no definition over the reals
    agrees with it on a base that is not positive. *)
Variable power : R -> R -> R.

(** Lines 72-74 of [solve_sdg_geometry]: the metric built from the
    clipped density. *)
Definition assemble_metric (rho_s_new : grid R) (alpha rho_vac : R)
    : list (list (grid R)) :=
  let eta := diag [-1; 1; 1; 1] in
  let scale := grid_map (fun r => power (rho_vac / r) alpha) rho_s_new in
  einsum_ab_xy eta scale.

(** [solve_sdg_geometry(T_info, rho_s, spatial_res, alpha, rho_vac)]. *)
Definition solve_sdg_geometry (T_info : list (list (grid C)))
    (rho_s : grid R) (spatial_res : Z) (alpha rho_vac : R)
    : result (grid R * list (list (grid R))) :=
  dx ← py_inverse spatial_res;
  T_00c ← index_00 T_info;
  let T_00 := grid_map fst T_00c in
  let rho_s_new := _jacobi_poisson_solver T_00 rho_s dx 50 1.8 in
  let rho_s_new := clip_min rho_s_new 1e-6 in
  mret (rho_s_new, assemble_metric rho_s_new alpha rho_vac).

End Geometry.

(** The relaxation sweep as the specification words it: the new value
    of every cell is the sum of its four periodic-wrap neighbours plus
    [S * dx^2], divided by 4, blended with the old value by [omega]. *)
Definition relaxation_sweep_spec (n m : nat) (S x : grid R) (dx omega : R)
    : grid R :=
  tabulate2 n m (fun i j =>
    let x_new :=
      (at2 x (wrap n (Z.of_nat i - 1)) j + at2 x (wrap n (Z.of_nat i + 1)) j
       + at2 x i (wrap m (Z.of_nat j - 1)) + at2 x i (wrap m (Z.of_nat j + 1))
       + at2 S i j * dx ^ 2) / 4 in
    (1 - omega) * at2 x i j + omega * x_new).

(** *** Forward-mode differentiation through the interpolation *)

(** A traced value of [jax.jacfwd]: a value and its tangent. *)
Record dual : Type := Dual { val : R; tan : R }.

Definition dconst (r : R) : dual := Dual r 0.
Definition dadd (a b : dual) : dual := Dual (val a + val b) (tan a + tan b).
Definition dsub (a b : dual) : dual := Dual (val a - val b) (tan a - tan b).
Definition dmul (a b : dual) : dual :=
  Dual (val a * val b) (tan a * val b + val a * tan b).
(** [jnp.floor]: piecewise constant, so its tangent is 0. *)
Definition dfloor (a : dual) : Z := Zfloor (val a).

(** [_linear_indices_and_weights(coordinate)] of
    [jax.scipy.ndimage.map_coordinates]. *)
Definition linear_indices_and_weights (coordinate : dual) : list (Z * dual) :=
  let lower := dfloor coordinate in
  let upper_weight := dsub coordinate (dconst (IZR lower)) in
  let lower_weight := dsub (dconst 1) upper_weight in
  [(lower, lower_weight); ((lower + 1)%Z, upper_weight)].

(** [ndimage.map_coordinates(input, coordinates, order=1, mode="wrap")]
    at one point of a 2-D input: the indices are wrapped with [%], and
    the four weighted corner values are added up. *)
Definition map_coordinates (input : grid R) (coordinates : dual * dual) : dual :=
  let '(n0, n1) := shape input in
  let nodes0 :=
    map (fun iw : Z * dual => (wrap n0 iw.1, iw.2))
        (linear_indices_and_weights coordinates.1) in
  let nodes1 :=
    map (fun iw : Z * dual => (wrap n1 iw.1, iw.2))
        (linear_indices_and_weights coordinates.2) in
  let outputs :=
    flat_map (fun a : nat * dual =>
      map (fun b : nat * dual =>
             dmul (dmul a.2 b.2) (dconst (at2 input a.1 b.1)))
          nodes1) nodes0 in
  match outputs with
  | [] => dconst 0
  | o :: os => fold_left dadd os o
  end.

(** [_sample_metric_component(field, coord)]. *)
Definition _sample_metric_component (field : grid R) (coord : dual * dual)
    : dual :=
  map_coordinates field coord.

(** [_metric_at_coord(coord, g_ij)]: the 2x2 matrix of the sampled
    components [g_ij[..., i, j]]. *)
Definition _metric_at_coord (coord : dual * dual)
    (g_ij : grid (list (list R))) : list (list dual) :=
  tabulate2 2 2 (fun i j =>
    _sample_metric_component (grid_map (fun cell => entry cell i j) g_ij) coord).

(** [jax.jacfwd(f)(p)] for a function of a coordinate pair with a 2x2
    result: one push-forward per coordinate, the coordinate axis last. *)
Definition jacfwd (f : dual * dual -> list (list dual)) (p : R * R)
    : list (list (list R)) :=
  let along0 := f (Dual p.1 1, Dual p.2 0) in
  let along1 := f (Dual p.1 0, Dual p.2 1) in
  zip_with (zip_with (fun a b => [tan a; tan b])) along0 along1.

(** An array of coordinate pairs has one dtype: integer or floating. *)
Inductive coord_array : Type :=
| IntCoords (g : grid (Z * Z))
| FloatCoords (g : grid (R * R)).

(** [coords.astype(float)]. *)
Definition astype_float (c : coord_array) : coord_array :=
  match c with
  | IntCoords g => FloatCoords (grid_map (fun p : Z * Z => (IZR p.1, IZR p.2)) g)
  | FloatCoords g => FloatCoords g
  end.

(** [jnp.stack(jnp.meshgrid(a, b, indexing="ij"), axis=-1)] of two
    integer ranges. *)
Definition meshgrid_stack (a b : list Z) : coord_array :=
  IntCoords (map (fun x => map (fun y => (x, y)) b) a).

(** [jax.vmap(jax.vmap(jax.jacfwd(f)))(coords)].  [jax.jacfwd] checks the
    dtype of its input before differentiating and accepts floating
    inputs only: on an integer array it raises TypeError ("jacfwd
    requires real-valued inputs (input dtype that is a sub-dtype of
    np.floating), but got int32"). *)
Definition vmap2_jacfwd (f : dual * dual -> list (list dual))
    (coords : coord_array) : result (grid (list (list (list R)))) :=
  match coords with
  | IntCoords _ => Raise TypeError
  | FloatCoords g => Ok (grid_map (jacfwd f) g)
  end.

(** *** Christoffel symbols and the diffusion operator *)

(** [jnp.moveaxis(dg, -1, -3)] in one cell: [dg_k[k][i][j] = dg[i][j][k]]. *)
Definition moveaxis_last_to_front (dg : list (list (list R)))
    : list (list (list R)) :=
  tabulate 2 (fun k => tabulate2 2 2 (fun i j =>
    nth k (nth j (nth i dg []) []) 0)).

Definition entry3 (t : list (list (list R))) (a b c : nat) : R :=
  nth c (nth b (nth a t []) []) 0.

(** Lines 98-110 in one cell.  [dg_k[..., i, :, j]] is the vector over
    the middle index [l]; stacking over [j] last and over [i] before it
    gives [term[l][i][j] = dg_k[i][l][j] + dg_k[j][l][i] - dg_k[l][i][j]]. *)
Definition christoffel_term (dg_k : list (list (list R)))
    : list (list (list R)) :=
  tabulate 2 (fun l => tabulate2 2 2 (fun i j =>
    entry3 dg_k i l j + entry3 dg_k j l i - entry3 dg_k l i j)).

(** Line 111 in one cell:
    [0.5 * einsum("...kl,...lij->...kij", g_inv, term)]. *)
Definition christoffel (g_inv : list (list R)) (term : list (list (list R)))
    : list (list (list R)) :=
  tabulate 2 (fun k => tabulate2 2 2 (fun i j =>
    0.5 * sum_list (map (fun l => entry g_inv k l * entry3 term l i j) (seq 0 2)))).

Definition centry (m : list (list C)) (i j : nat) : C :=
  nth j (nth i m []) (RtoC 0).

(** [einsum("...ij,...ij->...", g_inv, hessian)] in one cell. *)
Definition contract_hessian (g_inv : list (list R)) (hessian : list (list C)) : C :=
  Csum (flat_map (fun i => map (fun j =>
    Cscale (entry g_inv i j) (centry hessian i j)) (seq 0 2)) (seq 0 2)).

(** [einsum("...ij,...kij,...k->...", g_inv, Gamma, dPsi)] in one cell. *)
Definition contract_connection (g_inv : list (list R))
    (Gamma : list (list (list R))) (dPsi : list C) : C :=
  Csum (flat_map (fun i => flat_map (fun j => map (fun k =>
    Cscale (entry g_inv i j * entry3 Gamma k i j) (nth k dPsi (RtoC 0)))
    (seq 0 2)) (seq 0 2)) (seq 0 2)).

(** The body of [apply_complex_diffusion], with the conversion applied
    to the coordinate array before it is differentiated left open. *)
Definition apply_complex_diffusion_cast (cast : coord_array -> coord_array)
    (Psi : grid C) (epsilon : R) (g_mu_nu : list (list (grid R)))
    (spatial_resolution : Z) : result (grid C) :=
  dx ← py_inverse spatial_resolution;
  let g_ij :=
    moveaxis_01_23 0 (map (fun row => sliced row 1 3) (sliced g_mu_nu 1 3)) in
  let g_inv := grid_map inv g_ij in
  let metric := moveaxis_01_23 0 g_mu_nu in
  let det_g := grid_map det metric in
  let sqrt_neg_g := grid_map (fun d => sqrt (Rmax (- d) 0)) det_g in
  let grid :=
    cast (meshgrid_stack (arange (fst (shape g_ij)))
                         (arange (snd (shape g_ij)))) in
  dg ← vmap2_jacfwd (fun coord => _metric_at_coord coord g_ij) grid;
  let dg_k := grid_map moveaxis_last_to_front dg in
  let term := grid_map christoffel_term dg_k in
  let Gamma := grid_map2 christoffel g_inv term in
  dPsi_dy ← gradient_axis0 Psi dx;
  dPsi_dx ← gradient_axis1 Psi dx;
  let dPsi := stack2 dPsi_dy dPsi_dx in
  d2Psi_dy2 ← gradient_axis0 dPsi_dy dx;
  d2Psi_dx2 ← gradient_axis1 dPsi_dx dx;
  d2Psi_dydx ← gradient_axis1 dPsi_dy dx;
  d2Psi_dxdy ← gradient_axis0 dPsi_dx dx;
  let hessian :=
    stack2 (stack2 d2Psi_dy2 d2Psi_dydx) (stack2 d2Psi_dxdy d2Psi_dx2) in
  let laplace_beltrami :=
    grid_map2 Cminus
      (grid_map2 contract_hessian g_inv hessian)
      (grid_map3 contract_connection g_inv Gamma dPsi) in
  mret (grid_map (Cmult (epsilon * 0.5, epsilon * 0.8)) laplace_beltrami).

(** [apply_complex_diffusion(Psi, epsilon, g_mu_nu, spatial_resolution)]:
    the coordinate array is differentiated as [jnp.arange] built it. *)
Definition apply_complex_diffusion :=
  apply_complex_diffusion_cast (fun grid => grid).

(** *** The diffusion operator, cell by cell *)

(** The spatial block of the metric in the cell [(x, y)]: the 2x2
    matrix of the components [g_mu_nu[1 + i][1 + j]]. *)
Definition block_at (g_mu_nu : list (list (grid R))) (x y : nat)
    : list (list R) :=
  tabulate2 2 2 (fun i j => get 0 (get [] g_mu_nu (1 + i) (1 + j)) x y).

(** The forward differences of the spatial block with periodic wrap,
    the coordinate axis last: entry [i][j][0] is the difference to the
    next row, entry [i][j][1] the difference to the next column. *)
Definition forward_difference (g_mu_nu : list (list (grid R)))
    (n m x y : nat) : list (list (list R)) :=
  tabulate2 2 2 (fun i j =>
    [entry (block_at g_mu_nu (wrap n (Z.of_nat x + 1)) y) i j
     - entry (block_at g_mu_nu x y) i j;
     entry (block_at g_mu_nu x (wrap m (Z.of_nat y + 1))) i j
     - entry (block_at g_mu_nu x y) i j]).

(** The difference quotients of [jnp.gradient] along axis 0 and along
    axis 1 of an n-by-m field read through [f]. *)
Definition D0 (n : nat) (h : R) (f : nat -> nat -> C) (x y : nat) : C :=
  edge_difference (fun k => f k y) n x h.

Definition D1 (m : nat) (h : R) (f : nat -> nat -> C) (x y : nat) : C :=
  edge_difference (fun k => f x k) m y h.

(** The increment of the specification in the cell [(x, y)] of an
    n-by-m grid with spacing [dx]:
    epsilon * (0.5 + 0.8 i) * (g^ij Hessian_ij - g^ij Gamma^k_ij grad_k Psi),
    with the inverse of the spatial block, the Christoffel symbols of
    its forward differences and the difference quotients of the
    field. *)
Definition diffusion_increment_spec (n m : nat) (Psi : grid C) (epsilon : R)
    (g_mu_nu : list (list (grid R))) (dx : R) (x y : nat) : C :=
  let psi := get (RtoC 0) Psi in
  let g_inv := inv (block_at g_mu_nu x y) in
  let Gamma :=
    christoffel g_inv
      (christoffel_term
        (moveaxis_last_to_front (forward_difference g_mu_nu n m x y))) in
  let dPsi := [D0 n dx psi x y; D1 m dx psi x y] in
  let hessian :=
    [[D0 n dx (D0 n dx psi) x y; D1 m dx (D0 n dx psi) x y];
     [D0 n dx (D1 m dx psi) x y; D1 m dx (D1 m dx psi) x y]] in
  Cmult (epsilon * 0.5, epsilon * 0.8)
    (Cminus (contract_hessian g_inv hessian)
            (contract_connection g_inv Gamma dPsi)).

(** The increment over a flat geometry with the constant inverse
    metric [g_inv]: the Hessian of difference quotients contracted with
    it, times epsilon * (0.5 + 0.8 i). *)
Definition flat_increment_spec (n m : nat) (Psi : grid C) (epsilon : R)
    (g_inv : list (list R)) (dx : R) (x y : nat) : C :=
  let psi := get (RtoC 0) Psi in
  let hessian :=
    [[D0 n dx (D0 n dx psi) x y; D1 m dx (D0 n dx psi) x y];
     [D0 n dx (D1 m dx psi) x y; D1 m dx (D1 m dx psi) x y]] in
  Cmult (epsilon * 0.5, epsilon * 0.8) (contract_hessian g_inv hessian).

(** The Christoffel symbol of the specification,
    1/2 g^kl (d_i g_lj + d_j g_li - d_l g_ij) summed over l, for the
    inverse metric [g_inv] and the derivatives [dg[a][b][c] = d_c g_ab]. *)
Definition christoffel_spec (g_inv : list (list R))
    (dg : list (list (list R))) (k i j : nat) : R :=
  0.5 * (entry g_inv k 0
           * (entry3 dg 0 j i + entry3 dg 0 i j - entry3 dg i j 0)
         + entry g_inv k 1
           * (entry3 dg 1 j i + entry3 dg 1 i j - entry3 dg i j 1)).

(** A 4x4 tensor field over an n-by-m grid. *)
Definition tensor_field (n m : nat) (g_mu_nu : list (list (grid R))) : Prop :=
  rectangular 4 4 g_mu_nu /\
  Forall (Forall (rectangular n m)) g_mu_nu.

End SolverSdg.

(** ** validation_pipeline.py *)

Module ValidationPipeline.

Import Np.

(** A loaded floating-point value: NaN, an infinity, or a finite
    number. *)
Inductive fval : Type :=
| FNaN
| FInf (negative : bool)
| FFin (r : R).

(** An n-dimensional array: its shape and its cells in storage order. *)
Record ndarray (A : Type) : Type := NdArray {
  nd_shape : list nat;
  nd_data : list A
}.
Arguments NdArray {A} nd_shape nd_data.
Arguments nd_shape {A} n.
Arguments nd_data {A} n.

(** The datasets of an HDF5 archive the validator looks at; a real
    field is stored with imaginary parts 0. *)
Record archive : Type := Archive {
  final_psi : option (ndarray (fval * fval));
  final_g_mu_nu : option (ndarray fval)
}.

(** A file of the data directory: one that [h5py.File] cannot open,
    with the message of the OSError it raises, or an archive. *)
Inductive file : Type :=
| Unreadable (reason : string)
| Hdf5 (a : archive).

(** The dictionary [output_data]; [error] and [traceback] are the keys
    only the crash handler sets. *)
Record provenance : Type := Provenance {
  job_uuid : string;
  metrics : gmap string fval;
  sentinel_code : R;
  validation_status : string;
  error : option string;
  traceback : option string
}.

(** The two directories the validator touches, by path. *)
Record filesystem : Type := Filesystem {
  data_files : gmap string file;
  provenance_files : gmap string provenance
}.

(** A raised exception: its class and its message. *)
Record exception : Type := Exception {
  exc_class : exn;
  exc_message : string
}.

(** The module [settings]. *)
Record settings : Type := Settings {
  PROVENANCE_DIR : string;
  DATA_DIR : string;
  SSE_METRIC_KEY : string;
  STABILITY_METRIC_KEY : string;
  SENTINEL_FAILURE : R;
  SENTINEL_DIVERGENCE : R
}.

(** The fallback class of lines 23-29. *)
Definition default_settings : settings :=
  {| PROVENANCE_DIR := "provenance_reports";
     DATA_DIR := "simulation_data";
     SSE_METRIC_KEY := "log_prime_sse";
     STABILITY_METRIC_KEY := "h_norm";
     SENTINEL_FAILURE := 999;
     SENTINEL_DIVERGENCE := 1002 |}.

(** [np.abs(z)**2] of a complex cell: an infinite component gives
    infinity, otherwise a NaN component gives NaN. *)
Definition abs_sq (z : fval * fval) : fval :=
  match z with
  | (FInf _, _) | (_, FInf _) => FInf false
  | (FNaN, _) | (_, FNaN) => FNaN
  | (FFin a, FFin b) => FFin (sqrt (a * a + b * b) ^ 2)
  end.

Definition isnan (v : fval) : bool :=
  match v with
  | FNaN => true
  | _ => false
  end.

(** [a > c] for a finite constant [c]; false on NaN. *)
Definition gt (a : fval) (c : R) : bool :=
  match a with
  | FNaN => false
  | FInf negative => negb negative
  | FFin r => if Rlt_dec c r then true else false
  end.

(** [np.maximum(a, b)]: NaN wins, then the larger value. *)
Definition maximum (a b : fval) : fval :=
  match a, b with
  | FNaN, _ | _, FNaN => FNaN
  | FInf false, _ | _, FInf false => FInf false
  | FInf true, v | v, FInf true => v
  | FFin x, FFin y => FFin (Rmax x y)
  end.

(** [np.max(a)]; an empty array raises ValueError. *)
Definition np_max (a : list fval) : exception + fval :=
  match a with
  | [] =>
      inl (Exception ValueError
        "zero-size array to reduction operation maximum which has no identity")
  | v :: vs => inr (fold_left maximum vs v)
  end.

(** A 3-D array: its three axis lengths and its cells in row-major
    order. *)
Record array3 (A : Type) : Type := Array3 {
  dims : nat * nat * nat;
  cells : list A
}.
Arguments Array3 {A} dims cells.
Arguments dims {A} a.
Arguments cells {A} a.

(** [field_3d[i, j, k]] for indices inside the array. *)
Definition cell3 {A : Type} (d : A) (field_3d : array3 A) (i j k : nat) : A :=
  let '(_, n1, n2) := dims field_3d in
  nth ((i * n1 + j) * n2 + k) (cells field_3d) d.

(** An integer index into an axis of length [n]: out of bounds raises
    IndexError. *)
Definition checked {A : Type} (inside : bool) (a : A) : result A :=
  if inside then Ok a else Raise IndexError.

(** [extract_rays(field_3d)]: the three centre lines and the main
    diagonal. *)
Definition extract_rays {A : Type} (d : A) (field_3d : array3 A)
    : result (list (list A)) :=
  let '(n0, n1, n2) := dims field_3d in
  let N := n0 in
  let center := (N / 2)%nat in
  ray_x ← checked ((center <? n1)%nat && (center <? n2)%nat)
            (tabulate n0 (fun i => cell3 d field_3d i center center));
  ray_y ← checked ((center <? n0)%nat && (center <? n2)%nat)
            (tabulate n1 (fun j => cell3 d field_3d center j center));
  ray_z ← checked ((center <? n0)%nat && (center <? n1)%nat)
            (tabulate n2 (fun k => cell3 d field_3d center center k));
  ray_diag ← checked
               (forallb (fun i => (i <? n1)%nat && (i <? n2)%nat) (seq 0 N))
               (tabulate N (fun i => cell3 d field_3d i i i));
  mret [ray_x; ray_y; ray_z; ray_diag].

(** [os.path.join(dir, name)] for a relative [name]. *)
Definition path_join (dir name : string) : string :=
  if decide (dir = EmptyString) then name
  else if decide (String.substring (String.length dir - 1) 1 dir = "/")
  then dir +:+ name
  else dir +:+ "/" +:+ name.

(** [atomic_write_provenance(filepath, data)]: the record is written
    to a temporary file, which then replaces the target. *)
Definition atomic_write_provenance (filepath : string) (data : provenance)
    (fs : filesystem) : filesystem :=
  let temp_path := filepath +:+ ".tmp" in
  let written := <[temp_path := data]> (provenance_files fs) in
  {| data_files := data_files fs;
     provenance_files := <[filepath := data]> (delete temp_path written) |}.

(** A density value that is not finite or exceeds the hard threshold
    1e6. *)
Definition divergent (v : fval) : Prop :=
  match v with
  | FNaN => True
  | FInf _ => True
  | FFin r => 1e6 < r
  end.

(** Lines 111-112: the archive read and the record written for a job. *)
Definition h5_path_of (cfg : settings) (uuid : string) : string :=
  path_join (DATA_DIR cfg) ("rho_history_" +:+ uuid +:+ ".h5").

Definition prov_path_of (cfg : settings) (uuid : string) : string :=
  path_join (PROVENANCE_DIR cfg) ("provenance_" +:+ uuid +:+ ".json").

(** How the [try] block of [run_validation] ends. *)
Inductive try_outcome : Type :=
| Returned (fs : filesystem)
| Completed (output_data : provenance)
| Crashed (e : exception).

Section Validator.

Variable cfg : settings.

(** [analyze_spectral_fidelity] and [np.var] work on floating-point
    spectra; the validator's control flow does not look inside them. *)
Variable analyze_spectral_fidelity : ndarray fval -> exception + fval.
Variable np_var : ndarray fval -> fval.
(** [traceback.format_exc()] for an exception caught in the block. *)
Variable format_exc : exception -> string.

(** The record the specification describes for a diverged run: the
    configured divergence code, the status DIVERGENCE, and the
    spectral-fidelity metric alone, pinned at 1000. *)
Definition divergence_record (uuid : string) : provenance :=
  {| job_uuid := uuid;
     metrics := {[ SSE_METRIC_KEY cfg := FFin 1000 ]};
     sentinel_code := SENTINEL_DIVERGENCE cfg;
     validation_status := "DIVERGENCE";
     error := None;
     traceback := None |}.

(** The record the crash handler of lines 156-161 leaves for the
    exception [e]: no metric, the configured failure code. *)
Definition crash_record (uuid : string) (e : exception) : provenance :=
  {| job_uuid := uuid;
     metrics := ∅;
     sentinel_code := SENTINEL_FAILURE cfg;
     validation_status := "CRASH";
     error := Some (exc_message e);
     traceback := Some (format_exc e) |}.

(** The record of a run that passes, with its two metrics. *)
Definition pass_record (uuid : string) (sse h_norm : fval) : provenance :=
  {| job_uuid := uuid;
     metrics :=
       <[STABILITY_METRIC_KEY cfg := h_norm]>
         (<[SSE_METRIC_KEY cfg := sse]> ∅);
     sentinel_code := 0;
     validation_status := "PASS";
     error := None;
     traceback := None |}.

(** Lines 122-154: the [try] block. *)
Definition try_block (h5_path prov_path : string) (output_data : provenance)
    (fs : filesystem) : try_outcome :=
  match data_files fs !! h5_path with
  | None =>
      Crashed (Exception FileNotFoundError
                 ("Artifact " +:+ h5_path +:+ " not found."))
  | Some (Unreadable reason) =>
      Crashed (Exception OSError reason)
  | Some (Hdf5 f) =>
      match final_psi f with
      | None =>
          Crashed (Exception ValueError "Corrupt HDF5: 'final_psi' missing.")
      | Some psi =>
          let rho := NdArray (nd_shape psi) (map abs_sq (nd_data psi)) in
          let diverged :=
            if existsb isnan (nd_data rho) then inr true
            else match np_max (nd_data rho) with
                 | inl e => inl e
                 | inr m => inr (gt m 1e6)
                 end in
          match diverged with
          | inl e => Crashed e
          | inr true =>
              let output_data :=
                {| job_uuid := job_uuid output_data;
                   metrics :=
                     <[SSE_METRIC_KEY cfg := FFin 1000]> (metrics output_data);
                   sentinel_code := SENTINEL_DIVERGENCE cfg;
                   validation_status := "DIVERGENCE";
                   error := error output_data;
                   traceback := traceback output_data |} in
              Returned (atomic_write_provenance prov_path output_data fs)
          | inr false =>
              let h_norm :=
                match final_g_mu_nu f with
                | Some g_tensor => np_var g_tensor
                | None => FFin 0
                end in
              match analyze_spectral_fidelity rho with
              | inl e => Crashed e
              | inr sse =>
                  Completed
                    {| job_uuid := job_uuid output_data;
                       metrics :=
                         <[STABILITY_METRIC_KEY cfg := h_norm]>
                           (<[SSE_METRIC_KEY cfg := sse]> (metrics output_data));
                       sentinel_code := sentinel_code output_data;
                       validation_status := validation_status output_data;
                       error := error output_data;
                       traceback := traceback output_data |}
              end
          end
      end
  end.

(** [run_validation(job_uuid)] as a transformer of the file system;
    the log lines are not modelled. *)
Definition run_validation (uuid : string) (fs : filesystem) : filesystem :=
  let h5_path := h5_path_of cfg uuid in
  let prov_path := prov_path_of cfg uuid in
  let output_data :=
    {| job_uuid := uuid;
       metrics := ∅;
       sentinel_code := 0;
       validation_status := "PASS";
       error := None;
       traceback := None |} in
  match try_block h5_path prov_path output_data fs with
  | Returned fs' => fs'
  | Completed output_data => atomic_write_provenance prov_path output_data fs
  | Crashed e =>
      let output_data :=
        {| job_uuid := job_uuid output_data;
           metrics := metrics output_data;
           sentinel_code := SENTINEL_FAILURE cfg;
           validation_status := "CRASH";
           error := Some (exc_message e);
           traceback := Some (format_exc e) |} in
      atomic_write_provenance prov_path output_data fs
  end.

End Validator.

End ValidationPipeline.

(** ** solve_sdg_geometry on arrays that hold NaN and infinities *)

(** The arrays of [solve_sdg_geometry] are floating-point arrays, whose
    cells can be NaN or infinite.  This module embeds the function on
    such cells ([fval]): NaN and the infinities propagate through the
    sum, the product, the quotient and the maximum as IEEE 754
    prescribes, and an operation on finite values gives the exact real
    result.  [SolverSdg] is this model restricted to finite cells
    ([finite_run_agrees] below). *)
Module SolverSdgIeee.

Import Np SolverSdg ValidationPipeline.

(** The sign bit of a finite value; the model has one zero. *)
Definition negative (r : R) : bool := if Rlt_dec r 0 then true else false.

(** [a + b]: NaN with a NaN operand and for infinities of opposite
    sign. *)
Definition fadd (a b : fval) : fval :=
  match a, b with
  | FNaN, _ | _, FNaN => FNaN
  | FInf s, FInf t => if Bool.eqb s t then FInf s else FNaN
  | FInf s, FFin _ | FFin _, FInf s => FInf s
  | FFin x, FFin y => FFin (x + y)
  end.

(** [a * b]: NaN with a NaN operand and for zero times an infinity. *)
Definition fmul (a b : fval) : fval :=
  match a, b with
  | FNaN, _ | _, FNaN => FNaN
  | FInf s, FInf t => FInf (xorb s t)
  | FInf s, FFin y | FFin y, FInf s =>
      if Req_EM_T y 0 then FNaN else FInf (xorb s (negative y))
  | FFin x, FFin y => FFin (x * y)
  end.

(** [a / b]: NaN with a NaN operand, for a quotient of infinities and
    for 0 / 0.  A zero divisor is read as +0; the solver never divides
    by zero (its divisors are 4.0 and the clipped density). *)
Definition fdiv (a b : fval) : fval :=
  match a, b with
  | FNaN, _ | _, FNaN => FNaN
  | FInf _, FInf _ => FNaN
  | FInf s, FFin y => FInf (xorb s (negative y))
  | FFin _, FInf _ => FFin 0
  | FFin x, FFin y =>
      if Req_EM_T y 0
      then (if Req_EM_T x 0 then FNaN else FInf (negative x))
      else FFin (x / y)
  end.

(** [v >= c] for a finite constant [c], as a proposition; it is false
    of NaN. *)
Definition at_least (c : R) (v : fval) : Prop :=
  match v with
  | FNaN => False
  | FInf s => s = false
  | FFin r => c <= r
  end.

(** The body of the loop of [_jacobi_poisson_solver] (lines 21-26);
    [d_sq] and [omega] are scalars computed from Python numbers. *)
Definition jacobi_sweep (source x : grid fval) (d_sq omega : R) : grid fval :=
  let x_new :=
    grid_map (fun v => fdiv v (FFin 4))
      (grid_map2 fadd
        (grid_map2 fadd
          (grid_map2 fadd
            (grid_map2 fadd (roll_axis0 x 1) (roll_axis0 x (-1)))
            (roll_axis1 x 1))
          (roll_axis1 x (-1)))
        (grid_map (fun s => fmul s (FFin d_sq)) source)) in
  grid_map2 fadd
    (grid_map (fun v => fmul (FFin (1 - omega)) v) x)
    (grid_map (fun v => fmul (FFin omega) v) x_new).

(** [_jacobi_poisson_solver(source, x, dx, iterations, omega)]. *)
Definition _jacobi_poisson_solver (source x : grid fval) (dx : R)
    (iterations : nat) (omega : R) : grid fval :=
  let d_sq := dx * dx in
  (fix loop (k : nat) (x : grid fval) : grid fval :=
     match k with
     | O => x
     | S k' => loop k' (jacobi_sweep source x d_sq omega)
     end) iterations x.

(** [jnp.clip(x, lo, None)], which is [jnp.maximum(lo, x)]: a NaN cell
    stays NaN. *)
Definition clip_min (x : grid fval) (lo : R) : grid fval :=
  grid_map (fun v => maximum (FFin lo) v) x.

(** [jnp.einsum('ab,xy->abxy', eta, scale)]: every entry is a product,
    nothing is summed. *)
Definition einsum_ab_xy (eta scale : grid fval) : list (list (grid fval)) :=
  grid_map (fun e => grid_map (fun s => fmul e s) scale) eta.

Section Geometry.

(** The floating-point power [x ** y], left open as in [SolverSdg]. *)
Variable power : fval -> fval -> fval.

(** Lines 72-74 of [solve_sdg_geometry]. *)
Definition assemble_metric (rho_s_new : grid fval) (alpha rho_vac : fval)
    : list (list (grid fval)) :=
  let eta := grid_map FFin (diag [-1; 1; 1; 1]) in
  let scale := grid_map (fun r => power (fdiv rho_vac r) alpha) rho_s_new in
  einsum_ab_xy eta scale.

(** [solve_sdg_geometry(T_info, rho_s, spatial_res, alpha, rho_vac)]. *)
Definition solve_sdg_geometry (T_info : list (list (grid (fval * fval))))
    (rho_s : grid fval) (spatial_res : Z) (alpha rho_vac : fval)
    : result (grid fval * list (list (grid fval))) :=
  dx ← py_inverse spatial_res;
  T_00c ← index_00 T_info;
  let T_00 := grid_map fst T_00c in
  let rho_s_new := _jacobi_poisson_solver T_00 rho_s dx 50 1.8 in
  let rho_s_new := clip_min rho_s_new 1e-6 in
  mret (rho_s_new, assemble_metric rho_s_new alpha rho_vac).

End Geometry.

(** Arrays of finite cells. *)
Definition finite_grid (x : grid R) : grid fval := grid_map FFin x.

Definition finite_complex (z : C) : fval * fval := (FFin (fst z), FFin (snd z)).

Definition finite_tensor (t : list (list (grid C)))
    : list (list (grid (fval * fval))) :=
  grid_map (grid_map finite_complex) t.

End SolverSdgIeee.

(** ** Concrete inputs *)

Module Inputs.

Import Np SolverSdg ValidationPipeline.

(** A field of three rows and two columns, real and positive, whose
    amplitude is 1, 2 and 5 on the successive rows. *)
Definition Psi_rows : grid C :=
  [[(1, 0); (1, 0)]; [(2, 0); (2, 0)]; [(5, 0); (5, 0)]].

Definition rho_2x2 : grid R := [[1; 2]; [3; 4]].

Definition zero_2x2 : grid R := [[0; 0]; [0; 0]].

Definition ones_2x2 : grid R := [[1; 1]; [1; 1]].

(** A 4x4 tensor field over a 2x2 grid: [t] in the time slot, [s] on
    the rest of the diagonal, 0 elsewhere. *)
Definition diagonal_metric (t s : R) : list (list (grid R)) :=
  tabulate2 4 4 (fun a b =>
    if (a =? b)%nat
    then (if (a =? 0)%nat then grid_map (fun _ => t) ones_2x2
          else grid_map (fun _ => s) ones_2x2)
    else zero_2x2).

(** A stress-energy tensor over a 2x2 grid whose [0,0] slot is
    [v + w i] everywhere and whose other slots hold [w]. *)
Definition stress_tensor (v w : R) : list (list (grid C)) :=
  tabulate2 4 4 (fun a b =>
    if ((a =? 0) && (b =? 0))%nat
    then grid_map (fun _ => (v, w)) ones_2x2
    else grid_map (fun _ => (w, 0)) ones_2x2).

Definition Psi_2x2 : grid C := [[(1, 0); (0, 1)]; [(2, 0); (1, 1)]].

(** An archive whose field holds one NaN. *)
Definition nan_archive : archive :=
  {| final_psi := Some (NdArray [2%nat] [(FFin 1, FFin 0); (FNaN, FFin 0)]);
     final_g_mu_nu := None |}.

Definition nan_filesystem : filesystem :=
  {| data_files :=
       {[ h5_path_of default_settings "job" := Hdf5 nan_archive ]};
     provenance_files := ∅ |}.

(** A field of one row. *)
Definition Psi_1x2 : grid C := [[(1, 0); (2, 0)]].

(** A cube of side 2 holding 1 to 8 in storage order. *)
Definition cube_2 : array3 R := Array3 (2, 2, 2)%nat [1; 2; 3; 4; 5; 6; 7; 8].

Definition empty_filesystem : filesystem :=
  {| data_files := ∅; provenance_files := ∅ |}.

Definition filesystem_with (a : archive) : filesystem :=
  {| data_files := {[ h5_path_of default_settings "job" := Hdf5 a ]};
     provenance_files := ∅ |}.

Definition fieldless_archive : archive :=
  {| final_psi := None; final_g_mu_nu := None |}.

Definition empty_field_archive : archive :=
  {| final_psi := Some (NdArray [0%nat] []); final_g_mu_nu := None |}.

Definition healthy_archive : archive :=
  {| final_psi := Some (NdArray [1%nat] [(FFin 1, FFin 0)]);
     final_g_mu_nu := None |}.

(** A warm start of the geometry solve with one NaN cell. *)
Definition nan_guess : grid fval := [[FNaN; FFin 1]; [FFin 1; FFin 1]].

(** A power for the examples: the real power on finite arguments, NaN
    on the others. *)
Definition finite_power (b e : fval) : fval :=
  match b, e with
  | FFin x, FFin y => FFin (Rpower x y)
  | _, _ => FNaN
  end.

End Inputs.

(** * Facts about the array operations *)

Module NpFacts.

Import Np.

Lemma nth_lookup_default {A : Type} (l : list A) (i : nat) (d : A) :
  nth i l d = default d (l !! i).
Proof.
  revert i; induction l as [|a l IH]; intros [|i]; simpl; auto.
Qed.

Lemma roll_nonempty {A : Type} (l : list A) (s : Z) :
  (0 < length l)%nat ->
  roll l s =
  take (length l)
    (drop (length l - Z.to_nat (s mod Z.of_nat (length l))) (l ++ l)).
Proof. destruct l; simpl; [lia | reflexivity]. Qed.

Lemma roll_offset (n : nat) (s : Z) :
  (0 < n)%nat -> (Z.to_nat (s mod Z.of_nat n) < n)%nat.
Proof.
  intros Hn.
  assert (0 <= s mod Z.of_nat n < Z.of_nat n)%Z by (apply Z.mod_pos_bound; lia).
  lia.
Qed.

Lemma length_roll {A : Type} (l : list A) (s : Z) : length (roll l s) = length l.
Proof.
  destruct (decide (0 < length l)%nat) as [Hn|Hn].
  - rewrite roll_nonempty by done.
    pose proof (roll_offset _ s Hn).
    rewrite length_take, length_drop, length_app. lia.
  - destruct l; [reflexivity | simpl in Hn; lia].
Qed.

(** Cell [i] of a rolled array is cell [i - shift], wrapped. *)
Lemma lookup_roll {A : Type} (l : list A) (s : Z) (i : nat) :
  (i < length l)%nat ->
  roll l s !! i = l !! wrap (length l) (Z.of_nat i - s).
Proof.
  intros Hi. rewrite roll_nonempty by lia. unfold wrap.
  set (n := length l) in *.
  pose proof (roll_offset n s ltac:(lia)) as Hkn.
  assert (Hk : (0 <= s mod Z.of_nat n)%Z) by (apply Z.mod_pos_bound; lia).
  set (k := Z.to_nat (s mod Z.of_nat n)) in *.
  rewrite lookup_take_lt by lia.
  rewrite lookup_drop.
  assert (Hw : ((Z.of_nat i - s) mod Z.of_nat n
               = (Z.of_nat (n - k + i)) mod Z.of_nat n)%Z).
  { replace (Z.of_nat (n - k + i))
      with (Z.of_nat i - s + (1 + s / Z.of_nat n) * Z.of_nat n)%Z.
    - now rewrite Z.mod_add by lia.
    - pose proof (Z.div_mod s (Z.of_nat n) ltac:(lia)) as Hdm.
      rewrite Nat2Z.inj_add, Nat2Z.inj_sub by lia.
      subst k. rewrite Z2Nat.id by lia. nia. }
  rewrite Hw.
  destruct (decide (n - k + i < n)%nat) as [Hlt|Hge].
  - rewrite lookup_app_l by (fold n; lia).
    rewrite Z.mod_small by lia. now rewrite Nat2Z.id.
  - rewrite lookup_app_r by (fold n; lia). fold n.
    replace (Z.of_nat (n - k + i))
      with (Z.of_nat (n - k + i - n) + 1 * Z.of_nat n)%Z by lia.
    rewrite Z.mod_add by lia. rewrite Z.mod_small by lia.
    now rewrite Nat2Z.id.
Qed.

Lemma rectangular_lookup {A : Type} (n m : nat) (x : grid A) (i : nat) row :
  rectangular n m x -> x !! i = Some row -> length row = m.
Proof.
  intros [_ HF] Hrow. rewrite Forall_lookup in HF. eauto.
Qed.

Lemma rectangular_nth {A : Type} (n m : nat) (x : grid A) (i : nat) :
  rectangular n m x -> (i < n)%nat -> length (nth i x []) = m.
Proof.
  intros Hx Hi. destruct (lookup_lt_is_Some_2 x i) as [row Hrow];
    [destruct Hx; lia|].
  rewrite nth_lookup_default, Hrow. simpl. eauto using rectangular_lookup.
Qed.

(** Two arrays of one shape with the same cells are the same array. *)
Lemma grid_ext {A : Type} (d : A) (n m : nat) (x y : grid A) :
  rectangular n m x -> rectangular n m y ->
  (forall i j, (i < n)%nat -> (j < m)%nat -> get d x i j = get d y i j) ->
  x = y.
Proof.
  intros Hx Hy Hcells.
  apply (nth_ext _ _ [] []); [destruct Hx, Hy; congruence|].
  intros i Hi. assert (i < n)%nat by (destruct Hx; lia).
  apply (nth_ext _ _ d d).
  - rewrite !(rectangular_nth n m) by done. reflexivity.
  - intros j Hj. rewrite (rectangular_nth n m) in Hj by done.
    now apply Hcells.
Qed.

Lemma length_tabulate {A : Type} (n : nat) (f : nat -> A) :
  length (tabulate n f) = n.
Proof. unfold tabulate. now rewrite length_map, length_seq. Qed.

Lemma nth_tabulate {A : Type} (n : nat) (f : nat -> A) (i : nat) (d : A) :
  (i < n)%nat -> nth i (tabulate n f) d = f i.
Proof.
  intros Hi. unfold tabulate.
  rewrite nth_lookup_default, list_lookup_fmap, lookup_seq_lt by done.
  reflexivity.
Qed.

Lemma rectangular_tabulate2 {A : Type} (n m : nat) (f : nat -> nat -> A) :
  rectangular n m (tabulate2 n m f).
Proof.
  split; [apply length_tabulate|].
  unfold tabulate2, tabulate. apply Forall_fmap, Forall_forall.
  intros i _. simpl. now rewrite length_map, length_seq.
Qed.

Lemma get_tabulate2 {A : Type} (d : A) (n m : nat) (f : nat -> nat -> A) i j :
  (i < n)%nat -> (j < m)%nat -> get d (tabulate2 n m f) i j = f i j.
Proof.
  intros Hi Hj. unfold get, tabulate2.
  rewrite nth_tabulate by done. now rewrite nth_tabulate.
Qed.

Lemma rectangular_grid_map {A B : Type} (f : A -> B) n m (x : grid A) :
  rectangular n m x -> rectangular n m (grid_map f x).
Proof.
  intros [Hn HF]. split; unfold grid_map; [now rewrite length_map|].
  apply Forall_fmap. eapply Forall_impl; [exact HF|].
  intros row Hrow. simpl. now rewrite length_map.
Qed.

Lemma get_grid_map {A B : Type} (f : A -> B) (da : A) (db : B) n m
    (x : grid A) i j :
  rectangular n m x -> (i < n)%nat -> (j < m)%nat ->
  get db (grid_map f x) i j = f (get da x i j).
Proof.
  intros Hx Hi Hj. unfold get, grid_map.
  destruct (lookup_lt_is_Some_2 x i) as [row Hrow]; [destruct Hx; lia|].
  pose proof (rectangular_lookup _ _ _ _ _ Hx Hrow) as Hlen.
  destruct (lookup_lt_is_Some_2 row j) as [c Hc]; [lia|].
  rewrite !nth_lookup_default, list_lookup_fmap, Hrow. simpl.
  rewrite list_lookup_fmap, Hc. reflexivity.
Qed.

Lemma rectangular_grid_map2 {A B C : Type} (f : A -> B -> C) n m
    (x : grid A) (y : grid B) :
  rectangular n m x -> rectangular n m y -> rectangular n m (grid_map2 f x y).
Proof.
  intros Hx Hy. split; unfold grid_map2.
  - rewrite length_zip_with. destruct Hx, Hy. lia.
  - apply Forall_lookup. intros i row Hrow.
    apply lookup_zip_with_Some in Hrow as (a & b & -> & Ha & Hb).
    rewrite length_zip_with.
    rewrite (rectangular_lookup _ _ _ _ _ Hx Ha).
    rewrite (rectangular_lookup _ _ _ _ _ Hy Hb). lia.
Qed.

Lemma get_grid_map2 {A B C : Type} (f : A -> B -> C) (da : A) (db : B) (dc : C)
    n m (x : grid A) (y : grid B) i j :
  rectangular n m x -> rectangular n m y -> (i < n)%nat -> (j < m)%nat ->
  get dc (grid_map2 f x y) i j = f (get da x i j) (get db y i j).
Proof.
  intros Hx Hy Hi Hj. unfold get, grid_map2.
  destruct (lookup_lt_is_Some_2 x i) as [rx Hrx]; [destruct Hx; lia|].
  destruct (lookup_lt_is_Some_2 y i) as [ry Hry]; [destruct Hy; lia|].
  pose proof (rectangular_lookup _ _ _ _ _ Hx Hrx).
  pose proof (rectangular_lookup _ _ _ _ _ Hy Hry).
  destruct (lookup_lt_is_Some_2 rx j) as [a Ha]; [lia|].
  destruct (lookup_lt_is_Some_2 ry j) as [b Hb]; [lia|].
  rewrite !nth_lookup_default, lookup_zip_with, Hrx, Hry. simpl.
  rewrite lookup_zip_with, Ha, Hb. reflexivity.
Qed.

Lemma rectangular_roll_axis0 {A : Type} n m (x : grid A) s :
  rectangular n m x -> rectangular n m (roll_axis0 x s).
Proof.
  intros Hx. split; unfold roll_axis0; [destruct Hx; now rewrite length_roll|].
  apply Forall_lookup. intros i row Hrow.
  assert (i < length x)%nat.
  { apply lookup_lt_Some in Hrow. now rewrite length_roll in Hrow. }
  rewrite lookup_roll in Hrow by done. eauto using rectangular_lookup.
Qed.

Lemma rectangular_roll_axis1 {A : Type} n m (x : grid A) s :
  rectangular n m x -> rectangular n m (roll_axis1 x s).
Proof.
  intros [Hn HF]. split; unfold roll_axis1; [now rewrite length_map|].
  apply Forall_fmap. eapply Forall_impl; [exact HF|].
  intros row Hrow. simpl. now rewrite length_roll.
Qed.

Lemma wrap_lt (n : nat) (i : Z) : (0 < n)%nat -> (wrap n i < n)%nat.
Proof.
  intros Hn. unfold wrap.
  assert (0 <= i mod Z.of_nat n < Z.of_nat n)%Z by (apply Z.mod_pos_bound; lia).
  lia.
Qed.

Lemma get_roll_axis0 {A : Type} (d : A) n m (x : grid A) s i j :
  rectangular n m x -> (i < n)%nat ->
  get d (roll_axis0 x s) i j = get d x (wrap n (Z.of_nat i - s)) j.
Proof.
  intros [Hn HF] Hi. unfold get, roll_axis0.
  rewrite !(nth_lookup_default _ _ []), lookup_roll by lia.
  now rewrite Hn.
Qed.

Lemma get_roll_axis1 {A : Type} (d : A) n m (x : grid A) s i j :
  rectangular n m x -> (i < n)%nat -> (j < m)%nat ->
  get d (roll_axis1 x s) i j = get d x i (wrap m (Z.of_nat j - s)).
Proof.
  intros Hx Hi Hj. unfold get, roll_axis1.
  destruct (lookup_lt_is_Some_2 x i) as [row Hrow]; [destruct Hx; lia|].
  pose proof (rectangular_lookup _ _ _ _ _ Hx Hrow) as Hlen.
  rewrite !nth_lookup_default, list_lookup_fmap, Hrow. simpl.
  rewrite lookup_roll by lia. now rewrite Hlen.
Qed.

(** A rolled array is the array cut in two with the parts swapped. *)
Lemma roll_split {A : Type} (l : list A) (s : Z) :
  exists k, (k <= length l)%nat /\ roll l s = drop k l ++ take k l.
Proof.
  destruct (decide (0 < length l)%nat) as [Hn|Hn].
  - pose proof (roll_offset _ s Hn) as Hk.
    exists (length l - Z.to_nat (s mod Z.of_nat (length l)))%nat.
    split; [lia|]. rewrite roll_nonempty by done.
    set (k := (length l - _)%nat). assert (k <= length l)%nat by (subst k; lia).
    rewrite drop_app_le by done.
    rewrite take_app_ge by (rewrite length_drop; lia).
    rewrite length_drop. f_equal. f_equal. lia.
  - exists 0%nat. destruct l; [|simpl in Hn; lia]. split; [simpl; lia|reflexivity].
Qed.

Lemma sum_list_app (a b : list R) :
  sum_list (a ++ b) = sum_list a + sum_list b.
Proof. induction a as [|v a IH]; simpl; [lra | rewrite IH; lra]. Qed.

Lemma sum_list_roll (l : list R) (s : Z) : sum_list (roll l s) = sum_list l.
Proof.
  destruct (roll_split l s) as (k & _ & ->).
  rewrite sum_list_app, Rplus_comm, <- sum_list_app.
  now rewrite take_drop.
Qed.

Lemma sum_list_scale (c : R) (l : list R) :
  sum_list (map (fun v => c * v) l) = c * sum_list l.
Proof. induction l as [|v l IH]; simpl; [lra | rewrite IH; lra]. Qed.

Lemma sum_list_zip_plus (a b : list R) :
  length a = length b ->
  sum_list (zip_with Rplus a b) = sum_list a + sum_list b.
Proof.
  revert b; induction a as [|v a IH]; intros [|w b] Hlen; simpl in *;
    try lia; [lra|].
  rewrite IH by lia. lra.
Qed.

Lemma sum_list_ext {A : Type} (f g : A -> R) (l : list A) :
  (forall a, f a = g a) -> sum_list (map f l) = sum_list (map g l).
Proof. intros Hfg. f_equal. apply map_ext. auto. Qed.

Lemma grid_sum_roll_axis0 (x : grid R) (s : Z) :
  grid_sum (roll_axis0 x s) = grid_sum x.
Proof.
  unfold grid_sum, roll_axis0.
  destruct (roll_split x s) as (k & _ & ->).
  rewrite map_app, sum_list_app, Rplus_comm, <- sum_list_app, <- map_app.
  now rewrite take_drop.
Qed.

Lemma grid_sum_roll_axis1 (x : grid R) (s : Z) :
  grid_sum (roll_axis1 x s) = grid_sum x.
Proof.
  unfold grid_sum, roll_axis1. rewrite map_map.
  apply sum_list_ext. intros row. apply sum_list_roll.
Qed.

Lemma grid_sum_scale (f : R -> R) (c : R) (x : grid R) :
  (forall v, f v = c * v) ->
  grid_sum (grid_map f x) = c * grid_sum x.
Proof.
  intros Hf. unfold grid_sum, grid_map. rewrite map_map.
  rewrite <- sum_list_scale, map_map. apply sum_list_ext. intros row.
  rewrite <- sum_list_scale. apply sum_list_ext, Hf.
Qed.

Lemma grid_sum_plus n m (x y : grid R) :
  rectangular n m x -> rectangular n m y ->
  grid_sum (grid_map2 Rplus x y) = grid_sum x + grid_sum y.
Proof.
  intros [Hn HF] [Hn' HF']. unfold grid_sum, grid_map2.
  subst n. revert y Hn' HF'.
  induction HF as [|rx x Hrx HF IH]; intros [|ry y] Hlen HF'; simpl in *;
    try lia; [lra|].
  inversion HF'; subst.
  rewrite IH by (auto; lia). rewrite sum_list_zip_plus by congruence. lra.
Qed.

Lemma length_concat_rectangular {A : Type} n m (x : grid A) :
  rectangular n m x -> size x = (n * m)%nat.
Proof.
  intros [Hn HF]. unfold size. subst n.
  induction HF as [|row x Hrow HF IH]; simpl; [reflexivity|].
  rewrite length_app, IH, Hrow. reflexivity.
Qed.

Lemma grid_sum_zero (x : grid R) :
  Forall (Forall (fun v => v = 0)) x -> grid_sum x = 0.
Proof.
  unfold grid_sum. induction 1 as [|row x Hrow _ IH]; simpl; [reflexivity|].
  rewrite IH. assert (sum_list row = 0) as ->; [|lra].
  induction Hrow as [|v row -> _ IHr]; simpl; [reflexivity | rewrite IHr; lra].
Qed.

Section GradientFacts.
Context {V : Type} `{VecOps V}.

Lemma length_gradient_along_axis (a : list V) (h : R) :
  (2 <= length a)%nat -> length (gradient_along_axis a h) = length a.
Proof.
  intros Hn. unfold gradient_along_axis, sliced.
  rewrite length_map, !length_app, length_map, !length_zip_with.
  rewrite !length_take, !length_drop. lia.
Qed.

Lemma nth_gradient_along_axis (d : V) (a : list V) (h : R) (i : nat) :
  (2 <= length a)%nat -> (i < length a)%nat ->
  nth i (gradient_along_axis a h) d
  = edge_difference (fun k => nth k a d) (length a) i h.
Proof.
  intros Hn Hi. unfold gradient_along_axis, edge_difference, sliced.
  set (n := length a) in *.
  assert (Hget : forall k, (k < n)%nat -> a !! k = Some (nth k a d)).
  { intros k Hk. destruct (lookup_lt_is_Some_2 a k) as [v Hv]; [done|].
    rewrite nth_lookup_default, Hv. reflexivity. }
  rewrite nth_lookup_default, list_lookup_fmap.
  destruct (decide (i = 0%nat)) as [->|Hi0].
  - rewrite lookup_app_l
      by (rewrite length_zip_with, !length_take, !length_drop; fold n; lia).
    rewrite lookup_zip_with, !lookup_take_lt, !lookup_drop by lia.
    rewrite !Hget by lia. reflexivity.
  - rewrite lookup_app_r
      by (rewrite length_zip_with, !length_take, !length_drop; fold n; lia).
    rewrite length_zip_with, !length_take, !length_drop. fold n.
    match goal with
    | |- context [ ?l !! ?k ] => replace k with (i - 1)%nat by lia
    end.
    destruct (Nat.eqb_spec i 0) as [|_]; [lia|].
    destruct (Nat.eqb_spec i (n - 1)) as [->|Hlast].
    + rewrite lookup_app_r
        by (rewrite length_map, length_zip_with, !length_take, !length_drop;
            fold n; lia).
      rewrite length_map, length_zip_with, !length_take, !length_drop. fold n.
      match goal with
      | |- context [ ?l !! ?k ] => replace k with 0%nat by lia
      end.
      rewrite lookup_zip_with, !lookup_take_lt, !lookup_drop by lia.
      rewrite !Hget by lia. simpl.
      replace (n - 1 + 0)%nat with (n - 1)%nat by lia.
      replace (n - 2 + 0)%nat with (n - 2)%nat by lia. reflexivity.
    + rewrite lookup_app_l
        by (rewrite length_map, length_zip_with, !length_take, !length_drop;
            fold n; lia).
      rewrite list_lookup_fmap, lookup_zip_with.
      rewrite !lookup_take_lt, !lookup_drop by lia.
      rewrite !Hget by lia. simpl.
      replace (S (S (i - 1))) with (i + 1)%nat by lia. reflexivity.
Qed.
End GradientFacts.

Lemma nth_map_lt {A B : Type} (f : A -> B) (l : list A) (j : nat) (da : A) (db : B) :
  (j < length l)%nat -> nth j (map f l) db = f (nth j l da).
Proof.
  intros Hj. destruct (lookup_lt_is_Some_2 l j) as [v Hv]; [done|].
  rewrite !nth_lookup_default, list_lookup_fmap, Hv. reflexivity.
Qed.

Lemma nth_zip_with_lt {A B C : Type} (f : A -> B -> C) (a : list A) (b : list B)
    (j : nat) (da : A) (db : B) (dc : C) :
  (j < length a)%nat -> (j < length b)%nat ->
  nth j (zip_with f a b) dc = f (nth j a da) (nth j b db).
Proof.
  intros Ha Hb. destruct (lookup_lt_is_Some_2 a j) as [u Hu]; [done|].
  destruct (lookup_lt_is_Some_2 b j) as [v Hv]; [done|].
  rewrite !nth_lookup_default, lookup_zip_with, Hu, Hv. reflexivity.
Qed.

Lemma shape_rectangular {A : Type} n m (x : grid A) :
  rectangular n m x -> (0 < n)%nat -> shape x = (n, m).
Proof.
  intros Hx Hn. unfold shape. rewrite (rectangular_nth n m) by done.
  destruct Hx as [-> _]. reflexivity.
Qed.

Section GridGradient.
Context {W : Type} `{VecOps W}.
Variable d : W.

Lemma nth_row_edge_difference n m (x : grid W) (i j : nat) (h : R) :
  rectangular n m x -> (2 <= n)%nat -> (i < n)%nat -> (j < m)%nat ->
  nth j (edge_difference (fun k => nth k x []) n i h) d
  = edge_difference (fun k => get d x k j) n i h.
Proof.
  intros Hx Hn Hi Hj. unfold edge_difference, get.
  assert (Hlen : forall k, (k < n)%nat -> length (nth k x []) = m)
    by (intros; now apply (rectangular_nth n m)).
  simpl vdiv. simpl vsub. simpl vmul.
  destruct (Nat.eqb_spec i 0); [|destruct (Nat.eqb_spec i (n - 1))].
  - rewrite (nth_map_lt _ _ _ d) by (rewrite length_zip_with, !Hlen; lia).
    rewrite (nth_zip_with_lt _ _ _ _ d d) by (rewrite Hlen; lia).
    reflexivity.
  - rewrite (nth_map_lt _ _ _ d) by (rewrite length_zip_with, !Hlen; lia).
    rewrite (nth_zip_with_lt _ _ _ _ d d) by (rewrite Hlen; lia).
    reflexivity.
  - rewrite (nth_map_lt _ _ _ d)
      by (rewrite length_map, length_zip_with, !Hlen; lia).
    rewrite (nth_map_lt _ _ _ d) by (rewrite length_zip_with, !Hlen; lia).
    rewrite (nth_zip_with_lt _ _ _ _ d d) by (rewrite Hlen; lia).
    reflexivity.
Qed.

Lemma rectangular_gradient_rows n m (x : grid W) (h : R) :
  rectangular n m x -> (2 <= n)%nat ->
  rectangular n m (gradient_along_axis x h).
Proof.
  intros Hx Hn. assert (Hlx : length x = n) by (destruct Hx; done).
  split; [rewrite length_gradient_along_axis; lia|].
  apply Forall_lookup. intros i row Hrow.
  assert (Hi : (i < n)%nat).
  { apply lookup_lt_Some in Hrow.
    rewrite length_gradient_along_axis in Hrow; lia. }
  assert (Hrow' : row = nth i (gradient_along_axis x h) []).
  { rewrite nth_lookup_default, Hrow. reflexivity. }
  rewrite Hrow', nth_gradient_along_axis by lia. rewrite Hlx.
  assert (Hlen : forall k, (k < n)%nat -> length (nth k x []) = m)
    by (intros; now apply (rectangular_nth n m)).
  unfold edge_difference. simpl vdiv. simpl vsub. simpl vmul.
  destruct (Nat.eqb_spec i 0); [|destruct (Nat.eqb_spec i (n - 1))];
    rewrite ?length_map, length_zip_with, !Hlen; lia.
Qed.

Lemma get_gradient_rows n m (x : grid W) (h : R) (i j : nat) :
  rectangular n m x -> (2 <= n)%nat -> (i < n)%nat -> (j < m)%nat ->
  get d (gradient_along_axis x h) i j
  = edge_difference (fun k => get d x k j) n i h.
Proof.
  intros Hx Hn Hi Hj. assert (Hlx : length x = n) by (destruct Hx; done).
  unfold get at 1. rewrite nth_gradient_along_axis by lia. rewrite Hlx.
  now apply (nth_row_edge_difference n m).
Qed.

Lemma rectangular_gradient_cols n m (x : grid W) (h : R) :
  rectangular n m x -> (2 <= m)%nat ->
  rectangular n m (map (fun row => gradient_along_axis row h) x).
Proof.
  intros [Hn HF] Hm. split; [now rewrite length_map|].
  apply Forall_fmap. eapply Forall_impl; [exact HF|].
  intros row Hrow. simpl in *. rewrite length_gradient_along_axis; lia.
Qed.

Lemma get_gradient_cols n m (x : grid W) (h : R) (i j : nat) :
  rectangular n m x -> (2 <= m)%nat -> (i < n)%nat -> (j < m)%nat ->
  get d (map (fun row => gradient_along_axis row h) x) i j
  = edge_difference (fun k => get d x i k) m j h.
Proof.
  intros Hx Hm Hi Hj. unfold get.
  rewrite (nth_map_lt _ _ _ []) by (destruct Hx; lia).
  rewrite nth_gradient_along_axis; rewrite (rectangular_nth n m) by done;
    [reflexivity | lia | lia].
Qed.

Lemma gradient_axis0_ok n m (x : grid W) (h : R) :
  rectangular n m x -> (2 <= n)%nat ->
  gradient_axis0 x h = Ok (gradient_along_axis x h).
Proof.
  intros Hx Hn. unfold gradient_axis0.
  rewrite (shape_rectangular n m) by (done || lia). simpl fst.
  destruct (Nat.ltb_spec n 2); [lia | reflexivity].
Qed.

Lemma gradient_axis1_ok n m (x : grid W) (h : R) :
  rectangular n m x -> (0 < n)%nat -> (2 <= m)%nat ->
  gradient_axis1 x h = Ok (map (fun row => gradient_along_axis row h) x).
Proof.
  intros Hx Hn Hm. unfold gradient_axis1.
  rewrite (shape_rectangular n m) by done. simpl snd.
  destruct (Nat.ltb_spec m 2); [lia | reflexivity].
Qed.

Lemma gradient_ok n m (x : grid W) :
  rectangular n m x -> (2 <= n)%nat -> (2 <= m)%nat ->
  gradient x = Ok (gradient_along_axis x 1,
                   map (fun row => gradient_along_axis row 1) x).
Proof.
  intros Hx Hn Hm. unfold gradient.
  rewrite (shape_rectangular n m) by (done || lia). simpl fst. simpl snd.
  destruct (Nat.ltb_spec (Nat.min n m) 2); [lia | reflexivity].
Qed.
End GridGradient.

Lemma edge_difference_ext {V : Type} `{VecOps V} (f g : nat -> V) n i h :
  (2 <= n)%nat -> (i < n)%nat ->
  (forall k, (k < n)%nat -> f k = g k) ->
  edge_difference f n i h = edge_difference g n i h.
Proof.
  intros Hn Hi Hfg. unfold edge_difference.
  destruct (Nat.eqb_spec i 0); [|destruct (Nat.eqb_spec i (n - 1))];
    rewrite !Hfg by lia; reflexivity.
Qed.

End NpFacts.

(** * Facts about the solver *)

Module SolverSdgFacts.

Import Np NpFacts SolverSdg Inputs.

Lemma rectangular_jacobi_sweep n m (S x : grid R) d_sq omega :
  rectangular n m S -> rectangular n m x ->
  rectangular n m (jacobi_sweep S x d_sq omega).
Proof.
  intros HS Hx. unfold jacobi_sweep.
  repeat first [ apply rectangular_grid_map2 | apply rectangular_grid_map
               | apply rectangular_roll_axis0 | apply rectangular_roll_axis1
               | assumption ].
Qed.

Ltac shape_step :=
  lazymatch goal with
  | |- rectangular _ _ (gradient_along_axis _ _) =>
      apply rectangular_gradient_rows
  | |- rectangular _ _ (map (fun row => gradient_along_axis row _) _) =>
      apply rectangular_gradient_cols
  | |- rectangular _ _ (jacobi_sweep _ _ _ _) => apply rectangular_jacobi_sweep
  | |- rectangular _ _ (roll_axis0 _ _) => apply rectangular_roll_axis0
  | |- rectangular _ _ (roll_axis1 _ _) => apply rectangular_roll_axis1
  | |- rectangular _ _ (tabulate2 _ _ _) => apply rectangular_tabulate2
  | |- rectangular _ _ (stack2 _ _) => unfold stack2
  | |- rectangular _ _ (grid_map3 _ _ _ _) => unfold grid_map3
  | |- rectangular _ _ (grid_map2 _ _ _) => apply rectangular_grid_map2
  | |- rectangular _ _ (grid_map _ _) => apply rectangular_grid_map
  | |- _ => lia
  end.

Ltac shape := repeat first [ assumption | shape_step ].

Ltac side := solve [ lia | shape ].

Lemma jacobi_sweep_is_spec n m (S x : grid R) dx omega :
  rectangular n m S -> rectangular n m x ->
  jacobi_sweep S x (dx * dx) omega = relaxation_sweep_spec n m S x dx omega.
Proof.
  intros HS Hx. apply (grid_ext 0 n m); [shape | apply rectangular_tabulate2 |].
  intros i j Hi Hj. unfold relaxation_sweep_spec.
  rewrite get_tabulate2 by done. unfold jacobi_sweep, at2.
  rewrite (get_grid_map2 _ 0 0 0 n m) by shape.
  rewrite !(get_grid_map _ 0 0 n m) by shape.
  rewrite !(get_grid_map2 _ 0 0 0 n m) by shape.
  rewrite !(get_grid_map _ 0 0 n m) by shape.
  rewrite !(get_roll_axis0 0 n m), !(get_roll_axis1 0 n m) by done.
  replace (Z.of_nat i - -1)%Z with (Z.of_nat i + 1)%Z by lia.
  replace (Z.of_nat j - -1)%Z with (Z.of_nat j + 1)%Z by lia.
  simpl. lra.
Qed.

Lemma jacobi_solver_iter (S x : grid R) dx k omega :
  _jacobi_poisson_solver S x dx k omega
  = Nat.iter k (fun y => jacobi_sweep S y (dx * dx) omega) x.
Proof.
  unfold _jacobi_poisson_solver. revert x.
  induction k as [|k IH]; intros x; [reflexivity|].
  rewrite Nat.iter_succ_r. apply IH.
Qed.

Lemma rectangular_iter_sweep n m (S x : grid R) d_sq k omega :
  rectangular n m S -> rectangular n m x ->
  rectangular n m (Nat.iter k (fun y => jacobi_sweep S y d_sq omega) x).
Proof.
  intros HS Hx. induction k as [|k IH]; simpl; [done|].
  now apply rectangular_jacobi_sweep.
Qed.

Lemma jacobi_solver_is_spec n m (S x : grid R) dx k omega :
  rectangular n m S -> rectangular n m x ->
  _jacobi_poisson_solver S x dx k omega
  = Nat.iter k (fun y => relaxation_sweep_spec n m S y dx omega) x.
Proof.
  intros HS Hx. rewrite jacobi_solver_iter.
  induction k as [|k IH]; simpl; [done|].
  rewrite <- IH. apply jacobi_sweep_is_spec; [done|].
  now apply rectangular_iter_sweep.
Qed.

Lemma grid_sum_jacobi_sweep n m (S x : grid R) d_sq omega :
  rectangular n m S -> rectangular n m x ->
  grid_sum (jacobi_sweep S x d_sq omega)
  = (1 - omega) * grid_sum x
    + omega * ((4 * grid_sum x + d_sq * grid_sum S) / 4).
Proof.
  intros HS Hx. unfold jacobi_sweep.
  rewrite (grid_sum_plus n m) by shape.
  rewrite (grid_sum_scale _ (1 - omega)) by (intros; lra).
  rewrite (grid_sum_scale _ omega) by (intros; lra).
  rewrite (grid_sum_scale _ (/ 4)) by (intros; lra).
  rewrite !(grid_sum_plus n m) by shape.
  rewrite (grid_sum_scale _ d_sq) by (intros; lra).
  rewrite !grid_sum_roll_axis0, !grid_sum_roll_axis1. lra.
Qed.

Lemma mean_jacobi_sweep_zero_source n m (S x : grid R) d_sq omega :
  rectangular n m S -> rectangular n m x ->
  Forall (Forall (fun v => v = 0)) S ->
  mean (jacobi_sweep S x d_sq omega) = mean x.
Proof.
  intros HS Hx Hzero. unfold mean.
  rewrite (length_concat_rectangular n m) by shape.
  rewrite (length_concat_rectangular n m x) by done.
  rewrite (grid_sum_jacobi_sweep n m) by done.
  rewrite (grid_sum_zero S) by done. f_equal. lra.
Qed.

Lemma jacobi_solver_succ (S x : grid R) dx k omega :
  _jacobi_poisson_solver S x dx (Datatypes.S k) omega
  = jacobi_sweep S (_jacobi_poisson_solver S x dx k omega) (dx * dx) omega.
Proof. now rewrite !jacobi_solver_iter. Qed.

Lemma rectangular_jacobi_solver n m (S x : grid R) dx k omega :
  rectangular n m S -> rectangular n m x ->
  rectangular n m (_jacobi_poisson_solver S x dx k omega).
Proof.
  intros. rewrite jacobi_solver_iter. now apply rectangular_iter_sweep.
Qed.

Section Geometry.
Variable power : R -> R -> R.

Lemma solve_sdg_geometry_unfold (T_info : list (list (grid C)))
    (T_00c : grid C) (rho_s : grid R) (spatial_res : Z) (alpha rho_vac : R) :
  spatial_res <> 0%Z ->
  index_00 T_info = Ok T_00c ->
  solve_sdg_geometry power T_info rho_s spatial_res alpha rho_vac
  = let rho_s_new :=
      clip_min (_jacobi_poisson_solver (grid_map fst T_00c) rho_s
                  (1 / IZR spatial_res) 50 1.8) 1e-6 in
    Ok (rho_s_new, assemble_metric power rho_s_new alpha rho_vac).
Proof.
  intros Hres HT. unfold solve_sdg_geometry, py_inverse.
  destruct (Z.eqb_spec spatial_res 0) as [|_]; [done|].
  unfold mbind, result_bind, mret, result_ret. rewrite HT. reflexivity.
Qed.

Lemma diag_minkowski (a b : nat) :
  (a < 4)%nat -> (b < 4)%nat ->
  get 0 (diag [-1; 1; 1; 1]) a b = minkowski a b.
Proof.
  intros Ha Hb. unfold diag. simpl length. rewrite get_tabulate2 by done.
  unfold minkowski. destruct (a =? b)%nat; [|reflexivity].
  destruct a as [|[|[|[|a]]]]; simpl; try reflexivity; lia.
Qed.

Lemma assemble_metric_entry n m (rho : grid R) (alpha rho_vac : R) a b x y :
  rectangular n m rho ->
  (a < 4)%nat -> (b < 4)%nat -> (x < n)%nat -> (y < m)%nat ->
  get 0 (get [] (assemble_metric power rho alpha rho_vac) a b) x y
  = minkowski a b * power (rho_vac / at2 rho x y) alpha.
Proof.
  intros Hrho Ha Hb Hx Hy. unfold assemble_metric, einsum_ab_xy. cbv zeta.
  rewrite (get_grid_map (B := grid R) _ 0 [] 4 4) by
    (try done; apply (rectangular_tabulate2 4 4)).
  rewrite (get_grid_map _ 0 0 n m) by (try done; now apply rectangular_grid_map).
  rewrite (get_grid_map _ 0 0 n m) by done.
  now rewrite diag_minkowski.
Qed.

End Geometry.

Lemma stress_energy_cells n m (Psi : grid C) (kappa eta : R) :
  rectangular n m Psi -> (2 <= n)%nat -> (2 <= m)%nat ->
  exists T,
    calculate_informational_stress_energy Psi kappa eta = Ok T /\
    rectangular 4 4 T /\
    forall a b i j, (a < 4)%nat -> (b < 4)%nat -> (i < n)%nat -> (j < m)%nat ->
      get (RtoC 0) (get [] T a b) i j
      = match a, b with
        | O, O => RtoC (stress_energy_00 edge_difference n m Psi kappa eta i j)
        | _, _ => RtoC 0
        end.
Proof.
  intros HPsi Hn Hm. unfold calculate_informational_stress_energy.
  rewrite (gradient_ok n m) by side.
  unfold mbind, result_bind, mret, result_ret. cbv beta iota zeta.
  rewrite (gradient_ok n m) by side. cbv beta iota zeta.
  eexists. split; [reflexivity|]. split; [apply rectangular_tabulate2|].
  intros a b i j Ha Hb Hi Hj. unfold moveaxis_23_01.
  rewrite get_tabulate2 by done.
  rewrite (get_grid_map _ [] (RtoC 0) n m) by side.
  rewrite (get_grid_map2 _ [] 0 [] n m) by side.
  rewrite (get_grid_map _ (RtoC 0) [] n m) by side.
  assert (Hcell : forall v : R,
    nth b (nth a (<[0%nat := <[0%nat := RtoC v]>
                     (nth 0 (repeat (repeat (RtoC 0) 4) 4) [])]>
                   (repeat (repeat (RtoC 0) 4) 4)) []) (RtoC 0)
    = match a, b with O, O => RtoC v | _, _ => RtoC 0 end).
  { intros v.
    destruct a as [|[|[|[|a]]]]; [| | | |lia];
      (destruct b as [|[|[|[|b]]]]; [| | | |lia]); reflexivity. }
  rewrite Hcell. destruct a as [|a]; [|reflexivity].
  destruct b as [|b]; [|reflexivity]. f_equal.
  rewrite (get_grid_map2 _ 0 0 0 n m) by side.
  rewrite (get_grid_map2 _ 0 0 0 n m) by side.
  rewrite !(get_grid_map _ 0 0 n m) by side.
  rewrite !(get_grid_map2 _ 0 0 0 n m) by side.
  rewrite !(get_grid_map _ 0 0 n m) by side.
  rewrite !(get_grid_map _ (RtoC 0) 0 n m) by side.
  rewrite !(get_gradient_rows 0 n m), !(get_gradient_cols 0 n m) by side.
  unfold stress_energy_00.
  assert (Hphi0 : edge_difference (fun k => get 0 (grid_map angle Psi) k j) n i 1
                  = edge_difference
                      (fun x => angle (get (RtoC 0) Psi x j)) n i 1).
  { apply edge_difference_ext; try lia. intros k Hk.
    now rewrite (get_grid_map _ (RtoC 0) 0 n m). }
  assert (Hphi1 : edge_difference (fun k => get 0 (grid_map angle Psi) i k) m j 1
                  = edge_difference
                      (fun y => angle (get (RtoC 0) Psi i y)) m j 1).
  { apply edge_difference_ext; try lia. intros k Hk.
    now rewrite (get_grid_map _ (RtoC 0) 0 n m). }
  rewrite Hphi0, Hphi1.
  set (amp := grid_map (fun r => sqrt (Rmax r 1e-9))
                (grid_map (fun z => Cabs z ^ 2) Psi)).
  assert (Hamp : forall x y, (x < n)%nat -> (y < m)%nat ->
    get 0 amp x y = sqrt (Rmax (Cabs (get (RtoC 0) Psi x y) ^ 2) 1e-9)).
  { intros x y Hx Hy. unfold amp.
    rewrite (get_grid_map _ 0 0 n m) by side.
    now rewrite (get_grid_map _ (RtoC 0) 0 n m). }
  assert (Hamp0 : edge_difference (fun k => get 0 amp k j) n i 1
    = edge_difference
        (fun x => sqrt (Rmax (Cabs (get (RtoC 0) Psi x j) ^ 2) 1e-9)) n i 1).
  { apply edge_difference_ext; try lia. intros k Hk. now apply Hamp. }
  assert (Hamp1 : edge_difference (fun k => get 0 amp i k) m j 1
    = edge_difference
        (fun y => sqrt (Rmax (Cabs (get (RtoC 0) Psi i y) ^ 2) 1e-9)) m j 1).
  { apply edge_difference_ext; try lia. intros k Hk. now apply Hamp. }
  rewrite Hamp0, Hamp1. reflexivity.
Qed.

Lemma Cabs_real (x : R) : 0 <= x -> Cabs (x, 0) = x.
Proof.
  intros Hx. unfold Cabs. simpl fst. simpl snd.
  replace (x * x + 0 * 0) with (x ^ 2) by ring. now apply sqrt_pow2.
Qed.

Lemma angle_positive_real (x : R) : 0 < x -> angle (x, 0) = 0.
Proof.
  intros Hx. unfold angle, arctan2. simpl fst. simpl snd.
  destruct (Rlt_dec 0 x) as [_|Hn]; [|lra].
  replace (0 / x) with 0 by (field; lra). apply atan_0.
Qed.

Lemma amplitude_real (x : R) :
  1 <= x -> sqrt (Rmax (Cabs (x, 0) ^ 2) 1e-9) = x.
Proof.
  intros Hx. rewrite Cabs_real by lra.
  rewrite Rmax_left by nra. apply sqrt_pow2. lra.
Qed.

Lemma Psi_rows_get (x y : nat) :
  (x < 3)%nat -> (y < 2)%nat ->
  get (RtoC 0) Psi_rows x y = (nth x [1; 2; 5] 0, 0).
Proof.
  intros Hx Hy.
  destruct x as [|[|[|x]]]; [| | |lia]; (destruct y as [|[|y]]; [| |lia]);
    reflexivity.
Qed.

Lemma Psi_rows_edge_value :
  stress_energy_00 edge_difference 3 2 Psi_rows 1 1 0 0 = 1.
Proof.
  unfold stress_energy_00, edge_difference.
  cbn [Nat.eqb vdiv vsub R_vec].
  rewrite !Psi_rows_get by lia. cbn [nth].
  rewrite !angle_positive_real by lra.
  rewrite !amplitude_real by lra. rewrite Cabs_real by lra. lra.
Qed.

Lemma Psi_rows_periodic_value :
  stress_energy_00 periodic_central_difference 3 2 Psi_rows 1 1 0 0 = 9 / 4.
Proof.
  unfold stress_energy_00, periodic_central_difference.
  change (wrap 3 (Z.of_nat 0 + 1)) with 1%nat.
  change (wrap 3 (Z.of_nat 0 - 1)) with 2%nat.
  change (wrap 2 (Z.of_nat 0 + 1)) with 1%nat.
  change (wrap 2 (Z.of_nat 0 - 1)) with 1%nat.
  rewrite !Psi_rows_get by lia. cbn [nth].
  rewrite !angle_positive_real by lra.
  rewrite !amplitude_real by lra. rewrite Cabs_real by lra. lra.
Qed.

Lemma diffusion_reads_spatial_block (cast : coord_array -> coord_array)
    (Psi : grid C) (epsilon : R) (g1 g2 : list (list (grid R))) (res : Z) :
  map (fun row => sliced row 1 3) (sliced g1 1 3)
  = map (fun row => sliced row 1 3) (sliced g2 1 3) ->
  apply_complex_diffusion_cast cast Psi epsilon g1 res
  = apply_complex_diffusion_cast cast Psi epsilon g2 res.
Proof.
  intros Hblock. unfold apply_complex_diffusion_cast. cbv zeta.
  rewrite Hblock. reflexivity.
Qed.

Lemma apply_complex_diffusion_outcome (Psi : grid C) (epsilon : R)
    (g_mu_nu : list (list (grid R))) (res : Z) :
  apply_complex_diffusion Psi epsilon g_mu_nu res
  = if (res =? 0)%Z then Raise ZeroDivisionError else Raise TypeError.
Proof.
  unfold apply_complex_diffusion, apply_complex_diffusion_cast, py_inverse.
  destruct (res =? 0)%Z; reflexivity.
Qed.

Lemma wrap_small (n i : nat) : (i < n)%nat -> wrap n (Z.of_nat i) = i.
Proof.
  intros Hi. unfold wrap. rewrite Z.mod_small by lia. apply Nat2Z.id.
Qed.

Lemma map_coordinates_at_grid_point n m (input : grid R) (a b : nat) (t0 t1 : R) :
  rectangular n m input -> (a < n)%nat -> (b < m)%nat ->
  map_coordinates input (Dual (IZR (Z.of_nat a)) t0, Dual (IZR (Z.of_nat b)) t1)
  = Dual (at2 input a b)
         (t0 * (at2 input (wrap n (Z.of_nat a + 1)) b - at2 input a b)
          + t1 * (at2 input a (wrap m (Z.of_nat b + 1)) - at2 input a b)).
Proof.
  intros Hin Ha Hb. unfold map_coordinates.
  rewrite (shape_rectangular n m) by (done || lia).
  unfold linear_indices_and_weights, dfloor. cbn [val fst snd].
  rewrite !ZfloorZ.
  cbn [map flat_map app fst snd].
  rewrite !wrap_small by done.
  unfold dadd, dmul, dsub, dconst. cbn [fold_left val tan].
  f_equal; ring.
Qed.

Lemma tabulate_ext {A : Type} (n : nat) (f g : nat -> A) :
  (forall i, (i < n)%nat -> f i = g i) -> tabulate n f = tabulate n g.
Proof.
  intros Hfg. unfold tabulate. apply map_ext_in. intros i Hi.
  apply in_seq in Hi. apply Hfg. lia.
Qed.

Lemma tabulate2_ext {A : Type} (n m : nat) (f g : nat -> nat -> A) :
  (forall i j, (i < n)%nat -> (j < m)%nat -> f i j = g i j) ->
  tabulate2 n m f = tabulate2 n m g.
Proof.
  intros Hfg. unfold tabulate2. apply tabulate_ext. intros i Hi.
  apply tabulate_ext. intros j Hj. now apply Hfg.
Qed.

Lemma map_tabulate {A B : Type} (h : A -> B) (n : nat) (f : nat -> A) :
  map h (tabulate n f) = tabulate n (fun i => h (f i)).
Proof. unfold tabulate. now rewrite map_map. Qed.

Lemma grid_map_tabulate2 {A B : Type} (h : A -> B) (n m : nat) (f : nat -> nat -> A) :
  grid_map h (tabulate2 n m f) = tabulate2 n m (fun i j => h (f i j)).
Proof.
  unfold grid_map, tabulate2. rewrite map_tabulate. apply tabulate_ext.
  intros i _. apply map_tabulate.
Qed.

Lemma shape_tabulate2 {A : Type} (n m : nat) (f : nat -> nat -> A) :
  (0 < n)%nat -> shape (tabulate2 n m f) = (n, m).
Proof. intros. apply shape_rectangular; [apply rectangular_tabulate2 | done]. Qed.

(** The derivative of the interpolated metric at an integer grid point
    is the forward difference of its components, with periodic wrap. *)
Lemma jacfwd_metric_at_grid_point n m (g_ij : grid (list (list R))) (a b : nat) :
  rectangular n m g_ij -> (a < n)%nat -> (b < m)%nat ->
  jacfwd (fun coord => _metric_at_coord coord g_ij)
         (IZR (Z.of_nat a), IZR (Z.of_nat b))
  = tabulate2 2 2 (fun i j =>
      [entry (get [] g_ij (wrap n (Z.of_nat a + 1)) b) i j
       - entry (get [] g_ij a b) i j;
       entry (get [] g_ij a (wrap m (Z.of_nat b + 1))) i j
       - entry (get [] g_ij a b) i j]).
Proof.
  intros Hg Ha Hb. unfold jacfwd, _metric_at_coord, _sample_metric_component.
  cbn [fst snd].
  assert (Hcomp : forall i j x y, (x < n)%nat -> (y < m)%nat ->
    at2 (grid_map (fun cell => entry cell i j) g_ij) x y
    = entry (get [] g_ij x y) i j).
  { intros i j x y Hx Hy. unfold at2.
    now rewrite (get_grid_map _ [] 0 n m). }
  assert (Hn : (0 < n)%nat) by lia. assert (Hm : (0 < m)%nat) by lia.
  pose proof (wrap_lt n (Z.of_nat a + 1) Hn) as Hwa.
  pose proof (wrap_lt m (Z.of_nat b + 1) Hm) as Hwb.
  unfold tabulate2, tabulate. cbn [seq map zip_with].
  rewrite !(map_coordinates_at_grid_point n m)
    by (try done; now apply rectangular_grid_map).
  cbn [tan]. rewrite !Hcomp by done.
  repeat (f_equal; try ring).
Qed.

(** Sampling the metric at an integer grid point returns the metric of
    that cell, and its tangent is the forward difference to the next
    row and column, weighted by the tangent of the coordinates. *)
Lemma metric_at_grid_point n m (g_ij : grid (list (list R))) (a b : nat)
    (t0 t1 : R) :
  rectangular n m g_ij -> (a < n)%nat -> (b < m)%nat ->
  _metric_at_coord (Dual (IZR (Z.of_nat a)) t0, Dual (IZR (Z.of_nat b)) t1) g_ij
  = tabulate2 2 2 (fun i j =>
      Dual (entry (get [] g_ij a b) i j)
           (t0 * (entry (get [] g_ij (wrap n (Z.of_nat a + 1)) b) i j
                  - entry (get [] g_ij a b) i j)
            + t1 * (entry (get [] g_ij a (wrap m (Z.of_nat b + 1))) i j
                    - entry (get [] g_ij a b) i j))).
Proof.
  intros Hg Ha Hb. unfold _metric_at_coord, _sample_metric_component.
  apply tabulate2_ext. intros i j _ _.
  assert (Hn : (0 < n)%nat) by lia. assert (Hm : (0 < m)%nat) by lia.
  pose proof (wrap_lt n (Z.of_nat a + 1) Hn) as Hwa.
  pose proof (wrap_lt m (Z.of_nat b + 1) Hm) as Hwb.
  rewrite (map_coordinates_at_grid_point n m)
    by (try done; now apply rectangular_grid_map).
  unfold at2. now rewrite !(get_grid_map _ [] 0 n m).
Qed.

Lemma list_of_length_4 {A : Type} (l : list A) :
  length l = 4%nat -> exists a b c d, l = [a; b; c; d].
Proof.
  destruct l as [|a [|b [|c [|d [|e l]]]]]; simpl; try lia. eauto.
Qed.

Lemma spatial_block_of_tensor (g : list (list (grid R))) :
  rectangular 4 4 g ->
  map (fun row => sliced row 1 3) (sliced g 1 3)
  = tabulate2 2 2 (fun i j => get [] g (1 + i) (1 + j)).
Proof.
  intros [Hlen HF].
  destruct (list_of_length_4 g Hlen) as (r0 & r1 & r2 & r3 & ->).
  apply Forall_cons in HF as [H0 HF]. apply Forall_cons in HF as [H1 HF].
  apply Forall_cons in HF as [H2 HF]. apply Forall_cons in HF as [H3 _].
  destruct (list_of_length_4 r0 H0) as (? & ? & ? & ? & ->).
  destruct (list_of_length_4 r1 H1) as (? & ? & ? & ? & ->).
  destruct (list_of_length_4 r2 H2) as (? & ? & ? & ? & ->).
  destruct (list_of_length_4 r3 H3) as (? & ? & ? & ? & ->).
  reflexivity.
Qed.

Lemma tensor_component n m (g : list (list (grid R))) (a b : nat) :
  tensor_field n m g -> (a < 4)%nat -> (b < 4)%nat ->
  rectangular n m (get [] g a b).
Proof.
  intros [Hrect Hcomp] Ha Hb. unfold get. unfold grid in *.
  destruct (lookup_lt_is_Some_2 g a) as [row Hrow]; [destruct Hrect; lia|].
  pose proof (rectangular_lookup _ _ _ _ _ Hrect Hrow) as Hlen.
  destruct (lookup_lt_is_Some_2 row b) as [c Hc]; [lia|].
  rewrite !nth_lookup_default, Hrow. simpl. rewrite Hc. simpl.
  rewrite Forall_lookup in Hcomp. specialize (Hcomp _ _ Hrow).
  rewrite Forall_lookup in Hcomp. exact (Hcomp _ _ Hc).
Qed.

(** The spatial block moved to the cell axes is the grid of the blocks
    of the cells. *)
Lemma g_ij_of_tensor n m (g : list (list (grid R))) :
  tensor_field n m g -> (0 < n)%nat ->
  moveaxis_01_23 0 (map (fun row => sliced row 1 3) (sliced g 1 3))
  = tabulate2 n m (block_at g).
Proof.
  intros Hg Hn. rewrite spatial_block_of_tensor by (destruct Hg; done).
  unfold moveaxis_01_23.
  change (nth 0 (nth 0 (tabulate2 2 2 (fun i j => get [] g (1 + i) (1 + j))) []) [])
    with (get [] g 1 1).
  rewrite (shape_rectangular n m) by (try done; apply tensor_component; (done || lia)).
  reflexivity.
Qed.

Lemma float_meshgrid (n m : nat) :
  astype_float (meshgrid_stack (arange n) (arange m))
  = FloatCoords (tabulate2 n m (fun x y => (IZR (Z.of_nat x), IZR (Z.of_nat y)))).
Proof.
  unfold astype_float, meshgrid_stack, arange, grid_map, tabulate2, tabulate.
  f_equal. rewrite !map_map. apply map_ext. intros x. now rewrite !map_map.
Qed.

(** Differentiating the interpolated metric over the float grid gives
    the forward differences of the spatial block in every cell. *)
Lemma metric_derivative_on_float_grid n m (g : list (list (grid R))) :
  tensor_field n m g -> (0 < n)%nat -> (0 < m)%nat ->
  vmap2_jacfwd (fun coord => _metric_at_coord coord (tabulate2 n m (block_at g)))
    (astype_float (meshgrid_stack (arange n) (arange m)))
  = Ok (tabulate2 n m (forward_difference g n m)).
Proof.
  intros Hg Hn Hm. rewrite float_meshgrid. unfold vmap2_jacfwd. f_equal.
  rewrite grid_map_tabulate2. apply tabulate2_ext. intros x y Hx Hy.
  rewrite (jacfwd_metric_at_grid_point n m)
    by (try done; apply rectangular_tabulate2).
  unfold forward_difference. apply tabulate2_ext. intros i j _ _.
  rewrite !get_tabulate2 by (try done; now apply wrap_lt). reflexivity.
Qed.

Lemma get_stack2 {A : Type} (d : A) n m (a b : grid A) x y :
  rectangular n m a -> rectangular n m b -> (x < n)%nat -> (y < m)%nat ->
  get [] (stack2 a b) x y = [get d a x y; get d b x y].
Proof.
  intros. unfold stack2. now rewrite (get_grid_map2 _ d d [] n m).
Qed.

Lemma get_grid_map3 {A B C D : Type} (f : A -> B -> C -> D)
    (da : A) (db : B) (dc : C) (dd : D) n m
    (a : grid A) (b : grid B) (c : grid C) x y :
  rectangular n m a -> rectangular n m b -> rectangular n m c ->
  (x < n)%nat -> (y < m)%nat ->
  get dd (grid_map3 f a b c) x y = f (get da a x y) (get db b x y) (get dc c x y).
Proof.
  intros. unfold grid_map3.
  rewrite (get_grid_map2 _ (da, db) dc dd n m) by shape.
  now rewrite (get_grid_map2 _ da db (da, db) n m).
Qed.

Lemma diffusion_body_cells n m (Psi : grid C) (epsilon : R)
    (g : list (list (grid R))) (res : Z) :
  res <> 0%Z -> rectangular n m Psi -> tensor_field n m g ->
  (2 <= n)%nat -> (2 <= m)%nat ->
  exists r,
    apply_complex_diffusion_cast astype_float Psi epsilon g res = Ok r /\
    rectangular n m r /\
    forall x y, (x < n)%nat -> (y < m)%nat ->
      get (RtoC 0) r x y
      = diffusion_increment_spec n m Psi epsilon g (1 / IZR res) x y.
Proof.
  intros Hres HPsi Hg Hn Hm.
  unfold apply_complex_diffusion_cast, py_inverse.
  destruct (Z.eqb_spec res 0) as [|_]; [done|].
  set (dx := 1 / IZR res).
  unfold mbind, result_bind, mret, result_ret. cbv beta iota zeta.
  rewrite (g_ij_of_tensor n m) by (done || lia).
  rewrite shape_tabulate2 by lia. cbn [fst snd].
  rewrite metric_derivative_on_float_grid by (done || lia).
  rewrite (gradient_axis0_ok n m Psi) by side.
  rewrite (gradient_axis1_ok n m Psi) by side.
  set (dPsi_dy := gradient_along_axis Psi dx).
  set (dPsi_dx := map (fun row => gradient_along_axis row dx) Psi).
  assert (Hdy : rectangular n m dPsi_dy) by (subst dPsi_dy; shape).
  assert (Hdx : rectangular n m dPsi_dx) by (subst dPsi_dx; shape).
  rewrite (gradient_axis0_ok n m dPsi_dy) by side.
  rewrite (gradient_axis1_ok n m dPsi_dx) by side.
  rewrite (gradient_axis1_ok n m dPsi_dy) by side.
  rewrite (gradient_axis0_ok n m dPsi_dx) by side.
  eexists. split; [reflexivity|]. split; [shape|].
  intros x y Hx Hy.
  assert (Hgy : forall k l, (k < n)%nat -> (l < m)%nat ->
    get (RtoC 0) dPsi_dy k l = D0 n dx (get (RtoC 0) Psi) k l).
  { intros k l Hk Hl. subst dPsi_dy. now rewrite (get_gradient_rows _ n m). }
  assert (Hgx : forall k l, (k < n)%nat -> (l < m)%nat ->
    get (RtoC 0) dPsi_dx k l = D1 m dx (get (RtoC 0) Psi) k l).
  { intros k l Hk Hl. subst dPsi_dx. now rewrite (get_gradient_cols _ n m). }
  rewrite (get_grid_map _ (RtoC 0) (RtoC 0) n m) by side.
  rewrite (get_grid_map2 _ (RtoC 0) (RtoC 0) (RtoC 0) n m) by side.
  rewrite (get_grid_map2 _ [] [] (RtoC 0) n m) by side.
  rewrite (get_grid_map3 _ [] [] [] (RtoC 0) n m) by side.
  rewrite !(get_grid_map2 _ [] [] [] n m) by side.
  rewrite !(get_grid_map _ [] [] n m) by side.
  rewrite !get_tabulate2 by done.
  rewrite !(get_stack2 [] n m) by side.
  rewrite !(get_stack2 (RtoC 0) n m) by side.
  rewrite !(get_gradient_rows (RtoC 0) n m), !(get_gradient_cols (RtoC 0) n m)
    by side.
  unfold diffusion_increment_spec. cbv zeta.
  rewrite Hgy, Hgx by done.
  assert (H00 : edge_difference (fun k => get (RtoC 0) dPsi_dy k y) n x dx
                = D0 n dx (D0 n dx (get (RtoC 0) Psi)) x y).
  { apply edge_difference_ext; try lia. intros k Hk. now apply Hgy. }
  assert (H01 : edge_difference (fun k => get (RtoC 0) dPsi_dy x k) m y dx
                = D1 m dx (D0 n dx (get (RtoC 0) Psi)) x y).
  { apply edge_difference_ext; try lia. intros k Hk. now apply Hgy. }
  assert (H10 : edge_difference (fun k => get (RtoC 0) dPsi_dx k y) n x dx
                = D0 n dx (D1 m dx (get (RtoC 0) Psi)) x y).
  { apply edge_difference_ext; try lia. intros k Hk. now apply Hgx. }
  assert (H11 : edge_difference (fun k => get (RtoC 0) dPsi_dx x k) m y dx
                = D1 m dx (D1 m dx (get (RtoC 0) Psi)) x y).
  { apply edge_difference_ext; try lia. intros k Hk. now apply Hgx. }
  rewrite H00, H01, H10, H11. reflexivity.
Qed.

Lemma christoffel_entry (g_inv : list (list R)) (dg : list (list (list R)))
    (k i j : nat) :
  (k < 2)%nat -> (i < 2)%nat -> (j < 2)%nat ->
  entry3 (christoffel g_inv (christoffel_term (moveaxis_last_to_front dg))) k i j
  = christoffel_spec g_inv dg k i j.
Proof.
  intros Hk Hi Hj. unfold christoffel_spec.
  destruct k as [|[|k]]; [| |lia]; (destruct i as [|[|i]]; [| |lia]);
    (destruct j as [|[|j]]; [| |lia]);
    unfold christoffel, christoffel_term, moveaxis_last_to_front, entry3,
      tabulate2, tabulate;
    cbn [seq map nth sum_list fold_right]; ring.
Qed.

Lemma forward_difference_uniform n m (g : list (list (grid R))) (x y : nat) :
  (2 <= n)%nat -> (2 <= m)%nat -> (x < n)%nat -> (y < m)%nat ->
  (forall x1 y1 x2 y2, (x1 < n)%nat -> (y1 < m)%nat -> (x2 < n)%nat ->
     (y2 < m)%nat -> block_at g x1 y1 = block_at g x2 y2) ->
  forall a b c, entry3 (forward_difference g n m x y) a b c = 0.
Proof.
  intros Hn Hm Hx Hy Huni a b c. unfold forward_difference.
  rewrite (Huni (wrap n (Z.of_nat x + 1)) y x y)
    by (try done; apply wrap_lt; lia).
  rewrite (Huni x (wrap m (Z.of_nat y + 1)) x y)
    by (try done; apply wrap_lt; lia).
  unfold entry3, tabulate2, tabulate. cbn [seq map].
  destruct a as [|[|a]]; (destruct b as [|[|b]]); (destruct c as [|[|c]]);
    cbn [nth];
    first [ ring | reflexivity | destruct a; reflexivity
          | destruct b; reflexivity | destruct c; reflexivity ].
Qed.

Lemma christoffel_uniform n m (g : list (list (grid R))) (g_inv : list (list R))
    (x y k i j : nat) :
  (2 <= n)%nat -> (2 <= m)%nat -> (x < n)%nat -> (y < m)%nat ->
  (forall x1 y1 x2 y2, (x1 < n)%nat -> (y1 < m)%nat -> (x2 < n)%nat ->
     (y2 < m)%nat -> block_at g x1 y1 = block_at g x2 y2) ->
  (k < 2)%nat -> (i < 2)%nat -> (j < 2)%nat ->
  entry3 (christoffel g_inv
            (christoffel_term
               (moveaxis_last_to_front (forward_difference g n m x y)))) k i j
  = 0.
Proof.
  intros Hn Hm Hx Hy Huni Hk Hi Hj. rewrite christoffel_entry by done.
  unfold christoffel_spec.
  rewrite !(forward_difference_uniform n m g x y) by done. ring.
Qed.

Lemma contract_connection_zero (g_inv : list (list R))
    (Gamma : list (list (list R))) (dPsi : list C) :
  (forall k i j, (k < 2)%nat -> (i < 2)%nat -> (j < 2)%nat ->
     entry3 Gamma k i j = 0) ->
  contract_connection g_inv Gamma dPsi = RtoC 0.
Proof.
  intros HG. unfold contract_connection. cbn [seq flat_map map app].
  rewrite !HG by lia.
  unfold Csum, Cscale, Cplus, RtoC. cbn [fold_right fst snd]. f_equal; ring.
Qed.

Lemma increment_uniform n m (Psi : grid C) (epsilon : R)
    (g : list (list (grid R))) (dx : R) (x y : nat) :
  (2 <= n)%nat -> (2 <= m)%nat -> (x < n)%nat -> (y < m)%nat ->
  (forall x1 y1 x2 y2, (x1 < n)%nat -> (y1 < m)%nat -> (x2 < n)%nat ->
     (y2 < m)%nat -> block_at g x1 y1 = block_at g x2 y2) ->
  diffusion_increment_spec n m Psi epsilon g dx x y
  = flat_increment_spec n m Psi epsilon (inv (block_at g 0 0)) dx x y.
Proof.
  intros Hn Hm Hx Hy Huni.
  unfold diffusion_increment_spec, flat_increment_spec. cbv zeta.
  rewrite contract_connection_zero
    by (intros; now apply (christoffel_uniform n m)).
  rewrite (Huni x y 0%nat 0%nat) by lia.
  f_equal. unfold Cminus, RtoC. cbn [fst snd].
  destruct (contract_hessian _ _) as [re im]. cbn [fst snd]. f_equal; ring.
Qed.

(** Small grids: [jnp.gradient] refuses an axis shorter than 2. *)
Lemma stress_energy_small_grid n m (Psi : grid C) (kappa eta : R) :
  rectangular n m Psi -> (n < 2)%nat \/ (m < 2)%nat ->
  calculate_informational_stress_energy Psi kappa eta = Raise ValueError.
Proof.
  intros HPsi Hsmall. unfold calculate_informational_stress_energy, gradient.
  assert (Hshape : (Nat.min (fst (shape (grid_map angle Psi)))
                            (snd (shape (grid_map angle Psi))) <? 2)%nat = true).
  { apply Nat.ltb_lt.
    assert (Hrect : rectangular n m (grid_map angle Psi))
      by now apply rectangular_grid_map.
    destruct n as [|n].
    - destruct Hrect as [Hlen _]. unfold shape. rewrite Hlen. simpl. lia.
    - rewrite (shape_rectangular (S n) m) by (done || lia). simpl fst. simpl snd.
      lia. }
  rewrite Hshape. reflexivity.
Qed.

Lemma uniform_is_fixed_point n m (S x : grid R) (c d_sq omega : R) :
  rectangular n m S -> rectangular n m x ->
  Forall (Forall (fun v => v = 0)) S ->
  (forall i j, (i < n)%nat -> (j < m)%nat -> at2 x i j = c) ->
  jacobi_sweep S x d_sq omega = x.
Proof.
  intros HS Hx Hzero Hc. apply (grid_ext 0 n m); [shape | done |].
  intros i j Hi Hj. unfold jacobi_sweep.
  assert (HS0 : get 0 S i j = 0).
  { unfold get. unfold grid in *.
    destruct (lookup_lt_is_Some_2 S i) as [row Hrow]; [destruct HS; lia|].
    pose proof (rectangular_lookup _ _ _ _ _ HS Hrow) as Hlen.
    destruct (lookup_lt_is_Some_2 row j) as [v Hv]; [lia|].
    rewrite !nth_lookup_default, Hrow. simpl. rewrite Hv. simpl.
    rewrite Forall_lookup in Hzero. specialize (Hzero _ _ Hrow).
    rewrite Forall_lookup in Hzero. exact (Hzero _ _ Hv). }
  rewrite (get_grid_map2 _ 0 0 0 n m) by shape.
  rewrite !(get_grid_map _ 0 0 n m) by shape.
  rewrite !(get_grid_map2 _ 0 0 0 n m) by shape.
  rewrite !(get_grid_map _ 0 0 n m) by shape.
  rewrite !(get_roll_axis0 0 n m), !(get_roll_axis1 0 n m) by done.
  rewrite HS0. unfold at2 in Hc.
  rewrite !Hc by (try done; apply wrap_lt; lia). lra.
Qed.

Lemma uniform_solver_fixed_point n m (S x : grid R) (c dx omega : R) (k : nat) :
  rectangular n m S -> rectangular n m x ->
  Forall (Forall (fun v => v = 0)) S ->
  (forall i j, (i < n)%nat -> (j < m)%nat -> at2 x i j = c) ->
  _jacobi_poisson_solver S x dx k omega = x.
Proof.
  intros HS Hx Hzero Hc. rewrite jacobi_solver_iter.
  induction k as [|k IH]; simpl; [reflexivity|].
  rewrite IH. now apply (uniform_is_fixed_point n m _ _ c).
Qed.

Lemma clip_min_above (x : grid R) (lo : R) :
  Forall (Forall (fun v => lo <= v)) x -> clip_min x lo = x.
Proof.
  intros Hx. unfold clip_min, grid_map.
  induction Hx as [|row x Hrow _ IH]; simpl; [reflexivity|]. f_equal; [|exact IH].
  induction Hrow as [|v row Hv _ IHr]; simpl; [reflexivity|]. f_equal; [|exact IHr].
  now apply Rmax_left.
Qed.

End SolverSdgFacts.

(** * Facts about the validator *)

Module ValidationFacts.

Import Np ValidationPipeline.

Lemma abs_sq_not_negative_infinity (z : fval * fval) : abs_sq z <> FInf true.
Proof. destruct z as [[| |a] [| |b]]; simpl; discriminate. Qed.

Lemma isnan_maximum (a b : fval) :
  isnan (maximum a b) = isnan a || isnan b.
Proof. destruct a as [|[]|x], b as [|[]|y]; reflexivity. Qed.

Lemma gt_maximum (a b : fval) (c : R) :
  isnan a = false -> isnan b = false ->
  gt (maximum a b) c = gt a c || gt b c.
Proof.
  destruct a as [|[]|x], b as [|[]|y]; simpl; try discriminate;
    intros _ _; rewrite ?orb_true_r, ?orb_false_r; try reflexivity.
  unfold Rmax. destruct (Rle_dec x y), (Rlt_dec c x), (Rlt_dec c y);
      simpl; try reflexivity; lra.
Qed.

Lemma fold_maximum_gt (vs : list fval) (v : fval) (c : R) :
  isnan v = false -> existsb isnan vs = false ->
  isnan (fold_left maximum vs v) = false /\
  gt (fold_left maximum vs v) c = gt v c || existsb (fun a => gt a c) vs.
Proof.
  revert v. induction vs as [|w vs IH]; intros v Hv Hvs; simpl in *.
  - now rewrite orb_false_r.
  - apply orb_false_elim in Hvs as [Hw Hvs].
    destruct (IH (maximum v w)) as [Hnan Hgt];
      [rewrite isnan_maximum, Hv, Hw; reflexivity | done |].
    split; [done|]. rewrite Hgt, gt_maximum by done.
    now rewrite orb_assoc.
Qed.

(** A density value that counts as divergence: not finite, or above
    the threshold. *)
Lemma np_max_gt (a : list fval) (c : R) :
  existsb isnan a = false ->
  existsb (fun v => gt v c) a = true ->
  exists m, np_max a = inr m /\ gt m c = true.
Proof.
  destruct a as [|v vs]; simpl; [discriminate|]. intros Hnan Hgt.
  apply orb_false_elim in Hnan as [Hv Hvs].
  eexists. split; [reflexivity|].
  destruct (fold_maximum_gt vs v c Hv Hvs) as [_ ->]. exact Hgt.
Qed.

Lemma np_max_not_gt (a : list fval) (c : R) :
  existsb isnan a = false ->
  existsb (fun v => gt v c) a = false ->
  a <> [] ->
  exists m, np_max a = inr m /\ gt m c = false.
Proof.
  destruct a as [|v vs]; simpl; [done|]. intros Hnan Hgt _.
  apply orb_false_elim in Hnan as [Hv Hvs].
  eexists. split; [reflexivity|].
  destruct (fold_maximum_gt vs v c Hv Hvs) as [_ ->]. exact Hgt.
Qed.

Lemma divergent_density (psi : list (fval * fval)) :
  Exists divergent (map abs_sq psi) ->
  existsb isnan (map abs_sq psi) = true \/
  (existsb isnan (map abs_sq psi) = false /\
   existsb (fun v => gt v 1e6) (map abs_sq psi) = true).
Proof.
  intros Hdiv.
  destruct (existsb isnan (map abs_sq psi)) eqn:Hnan; [now left|right].
  split; [reflexivity|]. apply existsb_exists.
  apply Exists_exists in Hdiv as (v & Hin & Hv). exists v.
  apply list_elem_of_In in Hin. split; [done|].
  assert (Hv_nan : isnan v = false).
  { destruct (isnan v) eqn:E; [|reflexivity].
    assert (existsb isnan (map abs_sq psi) = true)
      by (apply existsb_exists; eauto).
    congruence. }
  apply in_map_iff in Hin as (z & <- & _).
  pose proof (abs_sq_not_negative_infinity z) as Hneg.
  destruct (abs_sq z) as [|[]|r]; simpl in *; try done.
  destruct (Rlt_dec _ r); [reflexivity | lra].
Qed.

Section ValidatorFacts.
Variable cfg : settings.
Variable analyze_spectral_fidelity : ndarray fval -> exception + fval.
Variable np_var : ndarray fval -> fval.
Variable format_exc : exception -> string.

Lemma run_validation_divergence (uuid : string) (fs : filesystem)
    (f : archive) (psi : ndarray (fval * fval)) :
  data_files fs !! h5_path_of cfg uuid = Some (Hdf5 f) ->
  final_psi f = Some psi ->
  Exists divergent (map abs_sq (nd_data psi)) ->
  run_validation cfg analyze_spectral_fidelity np_var format_exc uuid fs
  = atomic_write_provenance (prov_path_of cfg uuid) (divergence_record cfg uuid) fs.
Proof.
  intros Hfile Hpsi Hdiv. unfold run_validation, try_block. cbv zeta.
  rewrite Hfile, Hpsi. cbn [nd_data].
  destruct (divergent_density _ Hdiv) as [Hnan|[Hnan Hgt]]; rewrite Hnan.
  - unfold divergence_record. cbn [metrics job_uuid error traceback].
    now rewrite insert_empty.
  - destruct (np_max_gt _ _ Hnan Hgt) as (mx & -> & ->).
    unfold divergence_record. cbn [metrics job_uuid error traceback].
    now rewrite insert_empty.
Qed.

Lemma lookup_atomic_write (filepath : string) (data : provenance)
    (fs : filesystem) :
  provenance_files (atomic_write_provenance filepath data fs) !! filepath
  = Some data.
Proof. unfold atomic_write_provenance. simpl. apply lookup_insert_eq. Qed.
End ValidatorFacts.

Lemma length_string_app (s t : string) :
  String.length (s +:+ t) = (String.length s + String.length t)%nat.
Proof. induction s as [|c s IH]; simpl; [reflexivity | now rewrite IH]. Qed.

Lemma temp_path_differs (filepath : string) : filepath +:+ ".tmp" <> filepath.
Proof.
  intros Heq. apply (f_equal String.length) in Heq.
  rewrite length_string_app in Heq. simpl in Heq. lia.
Qed.

Section AtomicWrite.
Variables (filepath : string) (data : provenance) (fs : filesystem).

Lemma atomic_write_target :
  provenance_files (atomic_write_provenance filepath data fs) !! filepath
  = Some data.
Proof. unfold atomic_write_provenance. simpl. apply lookup_insert_eq. Qed.

Lemma atomic_write_no_temp :
  provenance_files (atomic_write_provenance filepath data fs)
    !! (filepath +:+ ".tmp") = None.
Proof.
  unfold atomic_write_provenance. simpl.
  pose proof (temp_path_differs filepath) as Hne.
  rewrite lookup_insert_ne by congruence.
  apply lookup_delete_eq.
Qed.

Lemma atomic_write_others (p : string) :
  p <> filepath -> p <> filepath +:+ ".tmp" ->
  provenance_files (atomic_write_provenance filepath data fs) !! p
  = provenance_files fs !! p.
Proof.
  intros Hp Ht. unfold atomic_write_provenance. simpl.
  rewrite lookup_insert_ne by congruence.
  rewrite lookup_delete_ne by congruence.
  now rewrite lookup_insert_ne by congruence.
Qed.

Lemma atomic_write_data :
  data_files (atomic_write_provenance filepath data fs) = data_files fs.
Proof. reflexivity. Qed.

Lemma atomic_write_twice :
  atomic_write_provenance filepath data
    (atomic_write_provenance filepath data fs)
  = atomic_write_provenance filepath data fs.
Proof.
  unfold atomic_write_provenance. simpl. f_equal.
  pose proof (temp_path_differs filepath) as Hne.
  apply map_eq. intros p.
  destruct (decide (p = filepath)) as [->|Hp].
  - now rewrite !lookup_insert_eq.
  - destruct (decide (p = filepath +:+ ".tmp")) as [->|Ht].
    + rewrite !(lookup_insert_ne _ filepath) by congruence.
      now rewrite !lookup_delete_eq.
    + repeat first [ rewrite lookup_insert_ne by congruence
                   | rewrite lookup_delete_ne by congruence ].
      reflexivity.
Qed.
End AtomicWrite.

Section ValidatorPaths.
Variable cfg : settings.
Variable analyze_spectral_fidelity : ndarray fval -> exception + fval.
Variable np_var : ndarray fval -> fval.
Variable format_exc : exception -> string.

Lemma run_validation_missing_archive (uuid : string) (fs : filesystem) :
  data_files fs !! h5_path_of cfg uuid = None ->
  run_validation cfg analyze_spectral_fidelity np_var format_exc uuid fs
  = atomic_write_provenance (prov_path_of cfg uuid)
      (crash_record cfg format_exc uuid
         (Exception FileNotFoundError
            ("Artifact " +:+ h5_path_of cfg uuid +:+ " not found."))) fs.
Proof.
  intros Hfile. unfold run_validation, try_block. cbv zeta.
  rewrite Hfile. reflexivity.
Qed.

Lemma run_validation_missing_field (uuid : string) (fs : filesystem)
    (f : archive) :
  data_files fs !! h5_path_of cfg uuid = Some (Hdf5 f) ->
  final_psi f = None ->
  run_validation cfg analyze_spectral_fidelity np_var format_exc uuid fs
  = atomic_write_provenance (prov_path_of cfg uuid)
      (crash_record cfg format_exc uuid (Exception ValueError "Corrupt HDF5: 'final_psi' missing."))
      fs.
Proof.
  intros Hfile Hpsi. unfold run_validation, try_block. cbv zeta.
  rewrite Hfile, Hpsi. reflexivity.
Qed.

Lemma run_validation_empty_field (uuid : string) (fs : filesystem)
    (f : archive) (psi : ndarray (fval * fval)) :
  data_files fs !! h5_path_of cfg uuid = Some (Hdf5 f) ->
  final_psi f = Some psi ->
  nd_data psi = [] ->
  exists e,
    exc_class e = ValueError /\
    run_validation cfg analyze_spectral_fidelity np_var format_exc uuid fs
    = atomic_write_provenance (prov_path_of cfg uuid) (crash_record cfg format_exc uuid e) fs.
Proof.
  intros Hfile Hpsi Hempty. unfold run_validation, try_block. cbv zeta.
  rewrite Hfile, Hpsi. cbn [nd_data]. rewrite Hempty. cbn [map existsb np_max].
  eexists. split; [|reflexivity]. reflexivity.
Qed.

(** A density without NaN whose cells are all at most 1e6. *)
Lemma run_validation_healthy (uuid : string) (fs : filesystem)
    (f : archive) (psi : ndarray (fval * fval)) :
  data_files fs !! h5_path_of cfg uuid = Some (Hdf5 f) ->
  final_psi f = Some psi ->
  nd_data psi <> [] ->
  Forall (fun v => ~ divergent v) (map abs_sq (nd_data psi)) ->
  let rho := NdArray (nd_shape psi) (map abs_sq (nd_data psi)) in
  let h_norm :=
    match final_g_mu_nu f with
    | Some g_tensor => np_var g_tensor
    | None => FFin 0
    end in
  run_validation cfg analyze_spectral_fidelity np_var format_exc uuid fs
  = atomic_write_provenance (prov_path_of cfg uuid)
      match analyze_spectral_fidelity rho with
      | inr sse => pass_record cfg uuid sse h_norm
      | inl e => crash_record cfg format_exc uuid e
      end fs.
Proof.
  intros Hfile Hpsi Hne Hfin rho h_norm.
  unfold run_validation, try_block. cbv zeta. rewrite Hfile, Hpsi.
  cbn [nd_data].
  assert (Hnan : existsb isnan (map abs_sq (nd_data psi)) = false).
  { apply not_true_is_false. intros Hex.
    apply existsb_exists in Hex as (v & Hin & Hv).
    rewrite Forall_forall in Hfin. apply list_elem_of_In in Hin.
    apply (Hfin v Hin). destruct v; simpl in *; done. }
  assert (Hgt : existsb (fun v => gt v 1e6) (map abs_sq (nd_data psi)) = false).
  { apply not_true_is_false. intros Hex.
    apply existsb_exists in Hex as (v & Hin & Hv).
    rewrite Forall_forall in Hfin. apply list_elem_of_In in Hin.
    apply (Hfin v Hin). destruct v as [| |r]; simpl in *; try done.
    destruct (Rlt_dec _ r); [done | discriminate]. }
  rewrite Hnan.
  destruct (np_max_not_gt _ 1e6 Hnan Hgt) as (mx & -> & ->).
  { intros Hnil. apply Hne. now apply map_eq_nil in Hnil. }
  fold rho. fold h_norm.
  destruct (analyze_spectral_fidelity rho) as [e|sse]; reflexivity.
Qed.
End ValidatorPaths.

Section ValidatorShape.
Variable cfg : settings.
Variable analyze_spectral_fidelity : ndarray fval -> exception + fval.
Variable np_var : ndarray fval -> fval.
Variable format_exc : exception -> string.

(** Whatever the archive holds, the run ends in one write of one
    record, and that record depends on the data files only. *)
Lemma run_validation_writes_once (uuid : string) (fs : filesystem) :
  exists rec,
    (forall fs', data_files fs' = data_files fs ->
       run_validation cfg analyze_spectral_fidelity np_var format_exc uuid fs'
       = atomic_write_provenance (prov_path_of cfg uuid) rec fs') /\
    job_uuid rec = uuid /\
    ((validation_status rec = "PASS" /\ sentinel_code rec = 0
      /\ error rec = None) \/
     (validation_status rec = "DIVERGENCE"
      /\ sentinel_code rec = SENTINEL_DIVERGENCE cfg /\ error rec = None) \/
     (validation_status rec = "CRASH"
      /\ sentinel_code rec = SENTINEL_FAILURE cfg /\ metrics rec = ∅
      /\ is_Some (error rec))).
Proof.
  unfold run_validation, try_block. cbv zeta.
  destruct (data_files fs !! h5_path_of cfg uuid) as [[reason|f]|] eqn:Hfile.
  - eexists. split; [intros fs' ->; rewrite Hfile; reflexivity|].
    split; [reflexivity|]. right; right. simpl. eauto.
  - destruct (final_psi f) as [psi|] eqn:Hpsi.
    + cbn [nd_data].
      destruct (existsb isnan (map abs_sq (nd_data psi))) eqn:Hnan.
      * eexists. split; [intros fs' ->; rewrite Hfile, Hpsi; cbn [nd_data];
                         rewrite Hnan; reflexivity|].
        split; [reflexivity|]. right; left. simpl. eauto.
      * destruct (np_max (map abs_sq (nd_data psi))) as [e|mx] eqn:Hmax.
        -- eexists. split; [intros fs' ->; rewrite Hfile, Hpsi; cbn [nd_data];
                            rewrite Hnan, Hmax; reflexivity|].
           split; [reflexivity|]. right; right. simpl. eauto.
        -- destruct (gt mx 1e6) eqn:Hgt.
           ++ eexists. split; [intros fs' ->; rewrite Hfile, Hpsi;
                               cbn [nd_data]; rewrite Hnan, Hmax, Hgt;
                               reflexivity|].
              split; [reflexivity|]. right; left. simpl. eauto.
           ++ destruct (analyze_spectral_fidelity
                          (NdArray (nd_shape psi) (map abs_sq (nd_data psi))))
                as [e|sse] eqn:Han.
              ** eexists. split; [intros fs' ->; rewrite Hfile, Hpsi;
                                  cbn [nd_data]; rewrite Hnan, Hmax, Hgt, Han;
                                  reflexivity|].
                 split; [reflexivity|]. right; right. simpl. eauto.
              ** eexists. split; [intros fs' ->; rewrite Hfile, Hpsi;
                                  cbn [nd_data]; rewrite Hnan, Hmax, Hgt, Han;
                                  reflexivity|].
                 split; [reflexivity|]. left. simpl. eauto.
    + eexists. split; [intros fs' ->; rewrite Hfile, Hpsi; reflexivity|].
      split; [reflexivity|]. right; right. simpl. eauto.
  - eexists. split; [intros fs' ->; rewrite Hfile; reflexivity|].
    split; [reflexivity|]. right; right. simpl. eauto.
Qed.
End ValidatorShape.

Lemma diagonal_inside (N n1 n2 : nat) :
  forallb (fun i => (i <? n1)%nat && (i <? n2)%nat) (seq 0 N) = true
  <-> (N <= n1 /\ N <= n2)%nat.
Proof.
  rewrite forallb_forall. split.
  - intros Hall. destruct N as [|N]; [lia|].
    specialize (Hall N). rewrite in_seq in Hall.
    assert (HN : (N <? n1)%nat && (N <? n2)%nat = true) by (apply Hall; lia).
    apply andb_true_iff in HN as [H1 H2].
    apply Nat.ltb_lt in H1, H2. lia.
  - intros [H1 H2] i Hi%in_seq. apply andb_true_iff.
    split; apply Nat.ltb_lt; lia.
Qed.

Lemma half_inside (N : nat) : (N / 2 < N)%nat <-> (1 <= N)%nat.
Proof.
  split.
  - intros H. destruct N; [simpl in H; lia | lia].
  - intros H. apply Nat.div_lt; lia.
Qed.

Lemma extract_rays_spec {A : Type} (d : A) (field_3d : array3 A) (n0 n1 n2 : nat) :
  dims field_3d = (n0, n1, n2) ->
  extract_rays d field_3d
  = if ((1 <=? n0) && (n0 <=? n1) && (n0 <=? n2))%nat
    then Ok [tabulate n0 (fun i => cell3 d field_3d i (n0 / 2) (n0 / 2));
             tabulate n1 (fun j => cell3 d field_3d (n0 / 2) j (n0 / 2));
             tabulate n2 (fun k => cell3 d field_3d (n0 / 2) (n0 / 2) k);
             tabulate n0 (fun i => cell3 d field_3d i i i)]
    else Raise IndexError.
Proof.
  intros Hdims. unfold extract_rays. rewrite Hdims.
  pose proof (half_inside n0) as Hhalf.
  destruct (Nat.leb_spec 1 n0) as [H0|H0]; cbn [andb].
  - destruct (Nat.leb_spec n0 n1) as [H1|H1]; cbn [andb].
    + destruct (Nat.leb_spec n0 n2) as [H2|H2].
      * assert (Hc : (n0 / 2 < n0)%nat) by now apply Hhalf.
        destruct (Nat.ltb_spec (n0 / 2) n1); [|lia].
        destruct (Nat.ltb_spec (n0 / 2) n2); [|lia].
        destruct (Nat.ltb_spec (n0 / 2) n0); [|lia].
        cbn [andb checked]. unfold mbind, result_bind.
        rewrite (proj2 (diagonal_inside n0 n1 n2)) by lia. reflexivity.
      * unfold checked, mbind, result_bind.
        destruct (forallb _ (seq 0 n0)) eqn:Hall;
          [apply diagonal_inside in Hall; lia|].
        repeat match goal with
               | |- context [if ?b then _ else _] => destruct b
               end; reflexivity.
    + unfold checked, mbind, result_bind.
      destruct (forallb _ (seq 0 n0)) eqn:Hall;
        [apply diagonal_inside in Hall; lia|].
      repeat match goal with
             | |- context [if ?b then _ else _] => destruct b
             end; reflexivity.
  - assert (n0 = 0%nat) as -> by lia. cbn [Nat.div Nat.divmod fst].
    unfold checked, mbind, result_bind.
    destruct ((0 <? n1)%nat && (0 <? n2)%nat); reflexivity.
Qed.

End ValidationFacts.

(** * Facts about the solve on NaN and infinite cells *)

Module SolverSdgIeeeFacts.

Import Np NpFacts SolverSdg SolverSdgFacts ValidationPipeline Inputs.
Import SolverSdgIeee.

Lemma rectangular_ieee_sweep n m (S x : grid fval) d_sq omega :
  rectangular n m S -> rectangular n m x ->
  rectangular n m (SolverSdgIeee.jacobi_sweep S x d_sq omega).
Proof.
  intros HS Hx. unfold SolverSdgIeee.jacobi_sweep.
  repeat first [ apply rectangular_grid_map2 | apply rectangular_grid_map
               | apply rectangular_roll_axis0 | apply rectangular_roll_axis1
               | assumption ].
Qed.

Lemma ieee_solver_iter (S x : grid fval) dx k omega :
  SolverSdgIeee._jacobi_poisson_solver S x dx k omega
  = Nat.iter k (fun y => SolverSdgIeee.jacobi_sweep S y (dx * dx) omega) x.
Proof.
  unfold SolverSdgIeee._jacobi_poisson_solver. revert x.
  induction k as [|k IH]; intros x; [reflexivity|].
  rewrite Nat.iter_succ_r. apply IH.
Qed.

Lemma rectangular_ieee_solver n m (S x : grid fval) dx k omega :
  rectangular n m S -> rectangular n m x ->
  rectangular n m (SolverSdgIeee._jacobi_poisson_solver S x dx k omega).
Proof.
  intros HS Hx. rewrite ieee_solver_iter.
  induction k as [|k IH]; simpl; [done|].
  now apply rectangular_ieee_sweep.
Qed.

Lemma Forall_get {A : Type} (d : A) (P : A -> Prop) n m (x : grid A) i j :
  rectangular n m x -> (i < n)%nat -> (j < m)%nat ->
  Forall (Forall P) x -> P (get d x i j).
Proof.
  intros Hx Hi Hj HP. unfold get.
  destruct (lookup_lt_is_Some_2 x i) as [row Hrow]; [destruct Hx; lia|].
  pose proof (rectangular_lookup _ _ _ _ _ Hx Hrow) as Hlen.
  destruct (lookup_lt_is_Some_2 row j) as [v Hv]; [lia|].
  rewrite !nth_lookup_default, Hrow. simpl. rewrite Hv. simpl.
  rewrite Forall_lookup in HP. specialize (HP _ _ Hrow).
  rewrite Forall_lookup in HP. exact (HP _ _ Hv).
Qed.

(** A NaN cell is NaN after a sweep: the blend multiplies it by
    [1 - omega] and adds to it. *)
Lemma nan_cell_after_sweep n m (S x : grid fval) d_sq omega i j :
  rectangular n m S -> rectangular n m x -> (i < n)%nat -> (j < m)%nat ->
  get FNaN x i j = FNaN ->
  get FNaN (SolverSdgIeee.jacobi_sweep S x d_sq omega) i j = FNaN.
Proof.
  intros HS Hx Hi Hj Hnan. unfold SolverSdgIeee.jacobi_sweep.
  rewrite (get_grid_map2 _ FNaN FNaN FNaN n m); try done.
  - rewrite (get_grid_map _ FNaN FNaN n m) by done.
    rewrite Hnan. reflexivity.
  - now apply rectangular_grid_map.
  - repeat first [ apply rectangular_grid_map2 | apply rectangular_grid_map
                 | apply rectangular_roll_axis0 | apply rectangular_roll_axis1
                 | assumption ].
Qed.

Lemma nan_cell_after_solver n m (S x : grid fval) dx k omega i j :
  rectangular n m S -> rectangular n m x -> (i < n)%nat -> (j < m)%nat ->
  get FNaN x i j = FNaN ->
  get FNaN (SolverSdgIeee._jacobi_poisson_solver S x dx k omega) i j = FNaN.
Proof.
  intros HS Hx Hi Hj Hnan. rewrite ieee_solver_iter.
  assert (H : rectangular n m
                (Nat.iter k (fun y => SolverSdgIeee.jacobi_sweep S y (dx * dx) omega) x)
              /\ get FNaN
                   (Nat.iter k (fun y => SolverSdgIeee.jacobi_sweep S y (dx * dx) omega) x)
                   i j = FNaN).
  { induction k as [|k [IHr IHn]]; simpl; [done|]. split.
    - now apply rectangular_ieee_sweep.
    - now apply (nan_cell_after_sweep n m). }
  apply H.
Qed.

(** The clip: every cell is NaN or at least the floor, and it is NaN
    exactly where the clipped array is. *)
Lemma maximum_floor (lo : R) (v : fval) :
  maximum (FFin lo) v = FNaN \/ at_least lo (maximum (FFin lo) v).
Proof.
  destruct v as [|[|]|r]; simpl; [now left | right; apply Rle_refl | now right |].
  right. apply Rmax_l.
Qed.

Lemma maximum_nan (lo : R) (v : fval) :
  maximum (FFin lo) v = FNaN <-> v = FNaN.
Proof. destruct v as [|[|]|r]; simpl; split; congruence. Qed.

Lemma clip_min_floor_or_nan (x : grid fval) (lo : R) :
  Forall (Forall (fun v => v = FNaN \/ at_least lo v))
    (SolverSdgIeee.clip_min x lo).
Proof.
  unfold SolverSdgIeee.clip_min, grid_map.
  apply Forall_fmap, Forall_true. intros row.
  simpl. apply Forall_fmap, Forall_true. intros v. simpl. apply maximum_floor.
Qed.

Lemma get_clip_min n m (x : grid fval) (lo : R) i j :
  rectangular n m x -> (i < n)%nat -> (j < m)%nat ->
  get FNaN (SolverSdgIeee.clip_min x lo) i j
  = maximum (FFin lo) (get FNaN x i j).
Proof.
  intros Hx Hi Hj. unfold SolverSdgIeee.clip_min.
  now rewrite (get_grid_map _ FNaN FNaN n m).
Qed.

Section Geometry.
Variable power : fval -> fval -> fval.

Lemma ieee_solve_unfold (T_info : list (list (grid (fval * fval))))
    (T_00c : grid (fval * fval)) (rho_s : grid fval) (spatial_res : Z)
    (alpha rho_vac : fval) :
  spatial_res <> 0%Z ->
  index_00 T_info = Ok T_00c ->
  SolverSdgIeee.solve_sdg_geometry power T_info rho_s spatial_res alpha rho_vac
  = let rho_s_new :=
      SolverSdgIeee.clip_min
        (SolverSdgIeee._jacobi_poisson_solver (grid_map fst T_00c) rho_s
           (1 / IZR spatial_res) 50 1.8) 1e-6 in
    Ok (rho_s_new, SolverSdgIeee.assemble_metric power rho_s_new alpha rho_vac).
Proof.
  intros Hres HT. unfold SolverSdgIeee.solve_sdg_geometry, py_inverse.
  destruct (Z.eqb_spec spatial_res 0) as [|_]; [done|].
  unfold mbind, result_bind, mret, result_ret. rewrite HT. reflexivity.
Qed.

Lemma ieee_metric_entry n m (rho : grid fval) (alpha rho_vac : fval) a b x y :
  rectangular n m rho ->
  (a < 4)%nat -> (b < 4)%nat -> (x < n)%nat -> (y < m)%nat ->
  get FNaN (get [] (SolverSdgIeee.assemble_metric power rho alpha rho_vac) a b) x y
  = fmul (FFin (minkowski a b))
      (power (fdiv rho_vac (get FNaN rho x y)) alpha).
Proof.
  intros Hrho Ha Hb Hx Hy.
  unfold SolverSdgIeee.assemble_metric, SolverSdgIeee.einsum_ab_xy. cbv zeta.
  rewrite (get_grid_map (B := grid fval) _ FNaN [] 4 4) by
    (try done; apply rectangular_grid_map, (rectangular_tabulate2 4 4)).
  rewrite (get_grid_map _ FNaN FNaN n m) by (try done; now apply rectangular_grid_map).
  rewrite (get_grid_map _ FNaN FNaN n m) by done.
  rewrite (get_grid_map _ 0 FNaN 4 4) by
    (try done; apply (rectangular_tabulate2 4 4)).
  now rewrite diag_minkowski.
Qed.

End Geometry.

(** ** The real-valued model is the restriction to finite cells *)

Lemma roll_fmap {A B : Type} (f : A -> B) (l : list A) (s : Z) :
  roll (map f l) s = map f (roll l s).
Proof.
  unfold roll. rewrite length_map.
  destruct (length l); [reflexivity|].
  now rewrite <- map_app, <- fmap_drop, <- fmap_take.
Qed.

Lemma grid_map_compose {A B C : Type} (f : A -> B) (g : B -> C) (x : grid A) :
  grid_map g (grid_map f x) = grid_map (fun v => g (f v)) x.
Proof.
  unfold grid_map. rewrite map_map. apply map_ext. intros row.
  now rewrite map_map.
Qed.

Lemma zip_with_fmap_both {A B C A' B' C' : Type} (f : A -> B -> C)
    (f' : A' -> B' -> C') (ia : A -> A') (ib : B -> B') (ic : C -> C')
    (l : list A) (k : list B) :
  (forall a b, f' (ia a) (ib b) = ic (f a b)) ->
  zip_with f' (map ia l) (map ib k) = map ic (zip_with f l k).
Proof.
  intros Hf. revert k. induction l as [|a l IH]; intros [|b k]; simpl; try done.
  now rewrite Hf, IH.
Qed.

Lemma grid_map2_finite (f : R -> R -> R) (f' : fval -> fval -> fval)
    (x y : grid R) :
  (forall a b, f' (FFin a) (FFin b) = FFin (f a b)) ->
  grid_map2 f' (finite_grid x) (finite_grid y) = finite_grid (grid_map2 f x y).
Proof.
  intros Hf. unfold grid_map2, finite_grid, grid_map.
  apply zip_with_fmap_both. intros a b. now apply zip_with_fmap_both.
Qed.

Lemma grid_map_finite (f : R -> R) (f' : fval -> fval) (x : grid R) :
  (forall a, f' (FFin a) = FFin (f a)) ->
  grid_map f' (finite_grid x) = finite_grid (grid_map f x).
Proof.
  intros Hf. unfold finite_grid. rewrite !grid_map_compose.
  unfold grid_map. apply map_ext. intros row. apply map_ext. intros a. apply Hf.
Qed.

Lemma roll_axis0_finite (x : grid R) (s : Z) :
  roll_axis0 (finite_grid x) s = finite_grid (roll_axis0 x s).
Proof. unfold roll_axis0, finite_grid, grid_map. apply roll_fmap. Qed.

Lemma roll_axis1_finite (x : grid R) (s : Z) :
  roll_axis1 (finite_grid x) s = finite_grid (roll_axis1 x s).
Proof.
  unfold roll_axis1, finite_grid, grid_map. rewrite !map_map.
  apply map_ext. intros row. apply roll_fmap.
Qed.

Lemma fdiv_finite (a b : R) : b <> 0 -> fdiv (FFin a) (FFin b) = FFin (a / b).
Proof. intros Hb. simpl. now destruct (Req_EM_T b 0). Qed.

Lemma jacobi_sweep_finite (S x : grid R) d_sq omega :
  SolverSdgIeee.jacobi_sweep (finite_grid S) (finite_grid x) d_sq omega
  = finite_grid (SolverSdg.jacobi_sweep S x d_sq omega).
Proof.
  unfold SolverSdgIeee.jacobi_sweep, SolverSdg.jacobi_sweep.
  rewrite !roll_axis0_finite, !roll_axis1_finite.
  rewrite (grid_map_finite (fun s => s * d_sq) (fun s => fmul s (FFin d_sq)))
    by reflexivity.
  rewrite !(grid_map2_finite Rplus fadd) by reflexivity.
  rewrite (grid_map_finite (fun v => v / 4) (fun v => fdiv v (FFin 4)))
    by (intros; apply fdiv_finite; lra).
  rewrite (grid_map_finite (fun v => omega * v) (fun v => fmul (FFin omega) v))
    by reflexivity.
  rewrite (grid_map_finite (fun v => (1 - omega) * v)
             (fun v => fmul (FFin (1 - omega)) v)) by reflexivity.
  now rewrite (grid_map2_finite Rplus fadd) by reflexivity.
Qed.

Lemma jacobi_solver_finite (S x : grid R) dx k omega :
  SolverSdgIeee._jacobi_poisson_solver (finite_grid S) (finite_grid x) dx k omega
  = finite_grid (SolverSdg._jacobi_poisson_solver S x dx k omega).
Proof.
  rewrite ieee_solver_iter, jacobi_solver_iter.
  induction k as [|k IH]; simpl; [reflexivity|].
  now rewrite IH, jacobi_sweep_finite.
Qed.

Lemma clip_min_finite (x : grid R) (lo : R) :
  SolverSdgIeee.clip_min (finite_grid x) lo
  = finite_grid (SolverSdg.clip_min x lo).
Proof.
  unfold SolverSdgIeee.clip_min, SolverSdg.clip_min.
  apply grid_map_finite. intros a. simpl. now rewrite Rmax_comm.
Qed.

(** On finite cells the two models return the same density (and raise
    the same exception). *)
Lemma finite_run_agrees (power : R -> R -> R) (power' : fval -> fval -> fval)
    (T_info : list (list (grid C))) (rho_s : grid R) (spatial_res : Z)
    (alpha rho_vac : R) :
  match SolverSdg.solve_sdg_geometry power T_info rho_s spatial_res alpha rho_vac,
        SolverSdgIeee.solve_sdg_geometry power' (finite_tensor T_info)
          (finite_grid rho_s) spatial_res (FFin alpha) (FFin rho_vac) with
  | Ok (rho, _), Ok (rho', _) => rho' = finite_grid rho
  | Raise e, Raise e' => e = e'
  | _, _ => False
  end.
Proof.
  unfold SolverSdg.solve_sdg_geometry, SolverSdgIeee.solve_sdg_geometry,
    py_inverse.
  destruct (Z.eqb_spec spatial_res 0) as [|_]; [done|].
  unfold mbind, result_bind, mret, result_ret.
  destruct T_info as [|[|T_00c row] rest]; simpl index_00; cbv iota beta;
    [done | done |].
  cbv zeta.
  replace (grid_map fst (grid_map finite_complex T_00c))
    with (finite_grid (grid_map fst T_00c)).
  - now rewrite jacobi_solver_finite, clip_min_finite.
  - unfold finite_grid. now rewrite !grid_map_compose.
Qed.

End SolverSdgIeeeFacts.

(** * The claims of the specification *)

Import Np NpFacts SolverSdg SolverSdgFacts ValidationPipeline ValidationFacts.
Import SolverSdgIeeeFacts.
Import Inputs.

Lemma rectangular_2x2 {A : Type} (a b c d : A) : rectangular 2 2 [[a; b]; [c; d]].
Proof. split; [reflexivity | repeat constructor]. Qed.

Lemma rectangular_Psi_rows : rectangular 3 2 Psi_rows.
Proof. split; [reflexivity | repeat constructor]. Qed.

(** C1, as the code has it.  For every complex field of n rows and m
    columns with n, m >= 2 and all scalars kappa, eta, the stress-energy
    calculator returns a tensor whose [0,0] component at the cell (i, j)
    is kappa * rho * |grad phi|^2 + eta * |grad sqrt(max(rho, 1e-9))|^2,
    with rho = |Psi|^2 and phi = arg(Psi), where each gradient component
    is the difference quotient of [jnp.gradient]: half the difference of
    the two neighbours inside the grid and a one-sided difference of the
    two outermost cells at each edge -- no wrap-around. *)
Theorem stress_energy_uses_edge_differences n m (Psi : grid C) (kappa eta : R) :
  rectangular n m Psi -> (2 <= n)%nat -> (2 <= m)%nat ->
  exists T,
    calculate_informational_stress_energy Psi kappa eta = Ok T /\
    forall i j, (i < n)%nat -> (j < m)%nat ->
      get (RtoC 0) (get [] T 0 0) i j
      = RtoC (stress_energy_00 edge_difference n m Psi kappa eta i j).
Proof.
  intros HPsi Hn Hm.
  destruct (stress_energy_cells n m Psi kappa eta HPsi Hn Hm) as (T & HT & _ & Hcells).
  exists T. split; [exact HT|]. intros i j Hi Hj.
  apply (Hcells 0%nat 0%nat i j); lia.
Qed.

(** The field [Psi_rows] meets the hypotheses of C1. *)
Lemma stress_energy_uses_edge_differences_witness :
  exists T,
    calculate_informational_stress_energy Psi_rows 1 1 = Ok T /\
    forall i j, (i < 3)%nat -> (j < 2)%nat ->
      get (RtoC 0) (get [] T 0 0) i j
      = RtoC (stress_energy_00 edge_difference 3 2 Psi_rows 1 1 i j).
Proof.
  apply (stress_energy_uses_edge_differences 3 2 Psi_rows 1 1).
  - split; [reflexivity | repeat constructor].
  - lia.
  - lia.
Defined.

(** C1 as the specification states it fails: on [Psi_rows] with
    kappa = eta = 1 the code returns 1 in the [0,0] component at the
    corner cell (0, 0), whereas central differences with periodic wrap
    give 9/4 there. *)
Lemma stress_energy_is_not_periodic :
  exists T,
    calculate_informational_stress_energy Psi_rows 1 1 = Ok T /\
    get (RtoC 0) (get [] T 0 0) 0 0
    <> RtoC (stress_energy_00 periodic_central_difference 3 2 Psi_rows 1 1 0 0).
Proof.
  destruct (stress_energy_cells 3 2 Psi_rows 1 1 rectangular_Psi_rows)
    as (T & HT & _ & Hcells); [lia | lia |].
  exists T. split; [exact HT|].
  rewrite (Hcells 0%nat 0%nat 0%nat 0%nat) by lia.
  rewrite Psi_rows_edge_value, Psi_rows_periodic_value.
  unfold RtoC. intros Heq. injection Heq. lra.
Qed.

(** C2.  For every source [T_info[0,0]] of n rows and m columns, every
    initial guess of the same shape and every non-zero resolution, the
    relaxation called by the geometry solve is exactly 50 applications of
    the sweep of the specification with omega = 1.8 (new value of a cell:
    the sum of its four periodic-wrap neighbours plus S * dx^2, over 4,
    blended as (1 - omega) * x + omega * x_new), with no test in between;
    the solver returns that iterate as it is, and only the caller clips
    it at 1e-6. *)
Theorem elliptic_relaxation_is_fifty_sweeps (power : R -> R -> R) n m (T_info : list (list (grid C)))
    (T_00c : grid C) (rho_s : grid R) (spatial_res : Z) (alpha rho_vac : R) :
  spatial_res <> 0%Z ->
  index_00 T_info = Ok T_00c ->
  rectangular n m T_00c -> rectangular n m rho_s ->
  let S := grid_map fst T_00c in
  let dx := 1 / IZR spatial_res in
  let relaxed :=
    Nat.iter 50 (fun x => relaxation_sweep_spec n m S x dx 1.8) rho_s in
  _jacobi_poisson_solver S rho_s dx 50 1.8 = relaxed /\
  solve_sdg_geometry power T_info rho_s spatial_res alpha rho_vac
  = Ok (clip_min relaxed 1e-6,
        assemble_metric power (clip_min relaxed 1e-6) alpha rho_vac).
Proof.
  intros Hres HT HTs Hrho S dx relaxed.
  assert (Hsolve : _jacobi_poisson_solver S rho_s dx 50 1.8 = relaxed).
  { apply jacobi_solver_is_spec; [|done]. now apply rectangular_grid_map. }
  split; [exact Hsolve|].
  rewrite (solve_sdg_geometry_unfold power _ T_00c) by done.
  fold S dx. cbv zeta. rewrite Hsolve. reflexivity.
Qed.

(** A 2x2 source and guess meet the hypotheses of C2. *)
Lemma elliptic_relaxation_is_fifty_sweeps_witness :
  _jacobi_poisson_solver (grid_map fst Psi_2x2) rho_2x2 (1 / IZR 2) 50 1.8
  = Nat.iter 50
      (fun x => relaxation_sweep_spec 2 2 (grid_map fst Psi_2x2) x (1 / IZR 2) 1.8)
      rho_2x2.
Proof.
  apply (elliptic_relaxation_is_fifty_sweeps Rpower 2 2 [[Psi_2x2]] Psi_2x2
           rho_2x2 2 1 1).
  - lia.
  - reflexivity.
  - apply rectangular_2x2.
  - apply rectangular_2x2.
Defined.



(** C4.  For every density field of n rows and m columns that is at
    least 1e-6 everywhere and all scalars alpha, rho_vac, the assembled
    metric satisfies g[a][b](x, y) = eta[a][b] * (rho_vac / rho(x, y))^alpha
    with eta = diag(-1, 1, 1, 1); and where the density equals rho_vac
    the scale is 1 and g[a][b](x, y) = eta[a][b] (for a power with
    1^alpha = 1, as the floating-point power has). *)
Theorem metric_is_scaled_minkowski (power : R -> R -> R) n m (rho : grid R) (alpha rho_vac : R) :
  rectangular n m rho ->
  Forall (Forall (fun v => 1e-6 <= v)) rho ->
  forall a b x y,
    (a < 4)%nat -> (b < 4)%nat -> (x < n)%nat -> (y < m)%nat ->
    let g := assemble_metric power rho alpha rho_vac in
    get 0 (get [] g a b) x y
    = minkowski a b * power (rho_vac / at2 rho x y) alpha /\
    ((forall alpha', power 1 alpha' = 1) ->
     at2 rho x y = rho_vac ->
     power (rho_vac / at2 rho x y) alpha = 1 /\
     get 0 (get [] g a b) x y = minkowski a b).
Proof.
  intros Hrho Hfloor a b x y Ha Hb Hx Hy g. subst g.
  rewrite (assemble_metric_entry power n m) by done.
  split; [reflexivity|]. intros Hone Hvac.
  assert (Hpos : 1e-6 <= at2 rho x y).
  { unfold at2, get.
    destruct (lookup_lt_is_Some_2 rho x) as [row Hrow]; [destruct Hrho; lia|].
    pose proof (rectangular_lookup _ _ _ _ _ Hrho Hrow) as Hlen.
    destruct (lookup_lt_is_Some_2 row y) as [v Hv]; [lia|].
    rewrite !nth_lookup_default, Hrow. simpl. rewrite Hv. simpl.
    rewrite Forall_lookup in Hfloor. specialize (Hfloor _ _ Hrow).
    rewrite Forall_lookup in Hfloor. exact (Hfloor _ _ Hv). }
  rewrite Hvac in *.
  replace (rho_vac / rho_vac) with 1 by (field; lra).
  rewrite Hone. split; [reflexivity | lra].
Qed.

(** The constant density 1 with rho_vac = 1 and the real power meet the
    hypotheses of C4. *)
Lemma metric_is_scaled_minkowski_witness :
  get 0 (get [] (assemble_metric Rpower ones_2x2 2 1) 0 0) 0 0 = minkowski 0 0.
Proof.
  refine (proj2 (proj2 (metric_is_scaled_minkowski Rpower 2 2 ones_2x2 2 1
            _ _ 0%nat 0%nat 0%nat 0%nat _ _ _ _) _ _)).
  - apply rectangular_2x2.
  - repeat constructor; lra.
  - lia.
  - lia.
  - lia.
  - lia.
  - intros a. unfold Rpower. rewrite ln_1, Rmult_0_r. apply exp_0.
  - reflexivity.
Defined.

(** C5.  The claim says that the diffusion operator returns
    epsilon * (0.5 + 0.8 i) times the Laplace-Beltrami value for every
    field, metric and epsilon.  The function as written returns nothing:
    it differentiates the interpolated metric at the integer coordinate
    array built by [jnp.arange], which [jax.jacfwd] rejects, so that every
    call with a non-zero resolution raises TypeError (and a zero
    resolution raises ZeroDivisionError before that). *)
Theorem apply_complex_diffusion_raises (Psi : grid C) (epsilon : R)
    (g_mu_nu : list (list (grid R))) (res : Z) :
  apply_complex_diffusion Psi epsilon g_mu_nu res
  = if (res =? 0)%Z then Raise ZeroDivisionError else Raise TypeError.
Proof. apply apply_complex_diffusion_outcome. Qed.

(** C6.  For every stored field whose derived density |psi|^2 holds a
    value that is not finite or exceeds 1e6, the validator writes, under
    the provenance path of the job, the record with status DIVERGENCE,
    the configured divergence code as sentinel and the spectral-fidelity
    metric pinned at 1000; that record holds no other metric (no
    stability metric, when its key differs from the spectral one), and
    it does not depend on the analysis functions. *)
Theorem divergent_density_is_refused (cfg : settings)
    (analyze_spectral_fidelity : ndarray fval -> exception + fval)
    (np_var : ndarray fval -> fval) (format_exc : exception -> string)
    (uuid : string) (fs : filesystem) (f : archive)
    (psi : ndarray (fval * fval)) :
  data_files fs !! h5_path_of cfg uuid = Some (Hdf5 f) ->
  final_psi f = Some psi ->
  Exists divergent (map abs_sq (nd_data psi)) ->
  let fs' :=
    run_validation cfg analyze_spectral_fidelity np_var format_exc uuid fs in
  provenance_files fs' !! prov_path_of cfg uuid
  = Some (divergence_record cfg uuid) /\
  (STABILITY_METRIC_KEY cfg <> SSE_METRIC_KEY cfg ->
   metrics (divergence_record cfg uuid) !! STABILITY_METRIC_KEY cfg = None).
Proof.
  intros Hfile Hpsi Hdiv fs'. subst fs'.
  rewrite (run_validation_divergence _ _ _ _ _ _ f psi) by done.
  split; [apply lookup_atomic_write|].
  intros Hkeys. unfold divergence_record. cbn [metrics].
  now apply lookup_singleton_ne.
Qed.

(** An archive whose field holds a NaN meets the hypotheses of C6. *)
Lemma divergent_density_is_refused_witness :
  provenance_files
    (run_validation default_settings (fun _ => inr (FFin 0)) (fun _ => FFin 0)
       (fun _ => EmptyString) "job" nan_filesystem)
  !! prov_path_of default_settings "job"
  = Some (divergence_record default_settings "job").
Proof.
  refine (proj1 (divergent_density_is_refused default_settings
            (fun _ => inr (FFin 0)) (fun _ => FFin 0) (fun _ => EmptyString)
            "job" nan_filesystem nan_archive
            (NdArray [2%nat] [(FFin 1, FFin 0); (FNaN, FFin 0)]) _ _ _)).
  - apply lookup_singleton_eq.
  - reflexivity.
  - apply Exists_cons_tl, Exists_cons_hd. exact I.
Defined.



(** C8.  The claim says that for a spatially uniform metric block all
    Christoffel symbols vanish and the increment reduces to the flat
    Laplacian contracted with the inverse metric.  On the flat metric
    diag(-1, 1, 1, 1) over a 2x2 grid the function as written computes no
    Christoffel symbol and no increment: it raises TypeError when it
    differentiates at the integer coordinate array (the defect of C5). *)
Theorem flat_metric_diffusion_raises :
  apply_complex_diffusion Psi_2x2 1 (diagonal_metric (-1) 1) 2 = Raise TypeError.
Proof. now rewrite apply_complex_diffusion_outcome. Qed.

(** C9.  For any two metric tensor fields that agree on the spatial
    block [g_mu_nu[1:3, 1:3]], the diffusion operator has the same
    outcome for the same field, epsilon and resolution, whatever the rest
    of the tensors holds: the time and third-axis components and the
    determinant of the full 4x4 tensor do not reach the output.  This
    holds for the function as written and for its body under any
    conversion of the coordinate array. *)
Theorem diffusion_ignores_time_and_third_axis (cast : coord_array -> coord_array)
    (Psi : grid C) (epsilon : R) (g1 g2 : list (list (grid R))) (res : Z) :
  map (fun row => sliced row 1 3) (sliced g1 1 3)
  = map (fun row => sliced row 1 3) (sliced g2 1 3) ->
  apply_complex_diffusion Psi epsilon g1 res
  = apply_complex_diffusion Psi epsilon g2 res /\
  apply_complex_diffusion_cast cast Psi epsilon g1 res
  = apply_complex_diffusion_cast cast Psi epsilon g2 res.
Proof.
  intros Hblock. split; now apply diffusion_reads_spatial_block.
Qed.

(** Two diagonal metrics that differ in the time component meet the
    hypothesis of C9. *)
Lemma diffusion_ignores_time_and_third_axis_witness :
  apply_complex_diffusion_cast astype_float Psi_2x2 1 (diagonal_metric (-1) 2) 2
  = apply_complex_diffusion_cast astype_float Psi_2x2 1 (diagonal_metric 5 2) 2.
Proof.
  apply (diffusion_ignores_time_and_third_axis astype_float Psi_2x2 1
           (diagonal_metric (-1) 2) (diagonal_metric 5 2) 2).
  reflexivity.
Defined.

(** C10.  For any two stress-energy tensor fields whose [0,0] components
    have equal real parts, the geometry solve returns the same density
    and metric for the same warm start and configuration: the imaginary
    part of [T[0,0]] and the other 15 components do not reach the
    result. *)
Theorem geometry_reads_only_real_T00 (power : R -> R -> R) (T1 T2 : list (list (grid C)))
    (A B : grid C) (rho_s : grid R) (spatial_res : Z) (alpha rho_vac : R) :
  index_00 T1 = Ok A -> index_00 T2 = Ok B ->
  grid_map fst A = grid_map fst B ->
  solve_sdg_geometry power T1 rho_s spatial_res alpha rho_vac
  = solve_sdg_geometry power T2 rho_s spatial_res alpha rho_vac.
Proof.
  intros HA HB Hre. unfold solve_sdg_geometry.
  destruct (py_inverse spatial_res) as [dx|e]; [|reflexivity].
  unfold mbind, result_bind. rewrite HA, HB, Hre. reflexivity.
Qed.

(** Two tensors with equal real [0,0] parts and different imaginary
    parts and other components meet the hypotheses of C10. *)
Lemma geometry_reads_only_real_T00_witness :
  solve_sdg_geometry Rpower (stress_tensor 3 0) rho_2x2 2 1 1
  = solve_sdg_geometry Rpower (stress_tensor 3 7) rho_2x2 2 1 1.
Proof.
  apply (geometry_reads_only_real_T00 Rpower (stress_tensor 3 0) (stress_tensor 3 7)
           (grid_map (fun _ => (3, 0)) ones_2x2)
           (grid_map (fun _ => (3, 7)) ones_2x2)).
  - reflexivity.
  - reflexivity.
  - reflexivity.
Defined.

(** * Further properties of the code *)

Lemma Forall_cells {A : Type} (d : A) (P : A -> Prop) n m (x : grid A) :
  rectangular n m x ->
  (forall i j, (i < n)%nat -> (j < m)%nat -> P (get d x i j)) ->
  Forall (Forall P) x.
Proof.
  intros Hx Hcells. apply Forall_lookup. intros i row Hrow.
  apply Forall_lookup. intros j v Hv.
  pose proof (rectangular_lookup _ _ _ _ _ Hx Hrow) as Hlen.
  assert (Hi : (i < n)%nat) by (destruct Hx as [<- _]; eauto using lookup_lt_Some).
  assert (Hj : (j < m)%nat) by (rewrite <- Hlen; eauto using lookup_lt_Some).
  specialize (Hcells i j Hi Hj). unfold get in Hcells.
  rewrite !nth_lookup_default, Hrow in Hcells. simpl in Hcells.
  now rewrite Hv in Hcells.
Qed.

Lemma tensor_field_diagonal_metric (t s : R) :
  tensor_field 2 2 (diagonal_metric t s).
Proof.
  split; [split; [reflexivity | repeat constructor] | repeat constructor].
Qed.

Lemma uniform_diagonal_metric (t s : R) (x1 y1 x2 y2 : nat) :
  (x1 < 2)%nat -> (y1 < 2)%nat -> (x2 < 2)%nat -> (y2 < 2)%nat ->
  block_at (diagonal_metric t s) x1 y1 = block_at (diagonal_metric t s) x2 y2.
Proof.
  intros H1 H2 H3 H4.
  destruct x1 as [|[|x1]]; [| |lia]; (destruct y1 as [|[|y1]]; [| |lia]);
    (destruct x2 as [|[|x2]]; [| |lia]); (destruct y2 as [|[|y2]]; [| |lia]);
    reflexivity.
Qed.







(** X4.  The index shuffling of lines 96-111 ([moveaxis], the stacked
    slices, the einsum) computes the standard Christoffel symbol
    Gamma^k_ij = 1/2 g^kl (d_i g_lj + d_j g_li - d_l g_ij), summed over
    l, from any inverse metric and any array of metric derivatives
    [dg[a][b][c] = d_c g_ab]. *)
Theorem christoffel_matches_standard_formula (g_inv : list (list R))
    (dg : list (list (list R))) (k i j : nat) :
  (k < 2)%nat -> (i < 2)%nat -> (j < 2)%nat ->
  entry3 (christoffel g_inv (christoffel_term (moveaxis_last_to_front dg))) k i j
  = christoffel_spec g_inv dg k i j.
Proof. apply christoffel_entry. Qed.

(** Indices (0, 1, 1) meet the hypotheses of X4. *)
Lemma christoffel_matches_standard_formula_witness :
  entry3 (christoffel [[1; 0]; [0; 1]]
            (christoffel_term
               (moveaxis_last_to_front [[[1; 2]; [3; 4]]; [[5; 6]; [7; 8]]])))
         0 1 1
  = christoffel_spec [[1; 0]; [0; 1]] [[[1; 2]; [3; 4]]; [[5; 6]; [7; 8]]] 0 1 1.
Proof.
  apply (christoffel_matches_standard_formula [[1; 0]; [0; 1]]
           [[[1; 2]; [3; 4]]; [[5; 6]; [7; 8]]] 0 1 1); lia.
Defined.

(** X5.  [_metric_at_coord] at an integer grid point (a, b) of an n-by-m
    metric field returns the metric of the cell (a, b), and its
    forward-mode tangent is the forward difference to the next row and
    to the next column, each with periodic wrap, weighted by the tangents
    of the two coordinates: the derivative of the wrap-mode linear
    interpolation is a one-sided periodic difference. *)
Theorem metric_sample_is_cell_and_forward_difference n m
    (g_ij : grid (list (list R))) (a b : nat) (t0 t1 : R) :
  rectangular n m g_ij -> (a < n)%nat -> (b < m)%nat ->
  _metric_at_coord (Dual (IZR (Z.of_nat a)) t0, Dual (IZR (Z.of_nat b)) t1) g_ij
  = tabulate2 2 2 (fun i j =>
      Dual (entry (get [] g_ij a b) i j)
           (t0 * (entry (get [] g_ij (wrap n (Z.of_nat a + 1)) b) i j
                  - entry (get [] g_ij a b) i j)
            + t1 * (entry (get [] g_ij a (wrap m (Z.of_nat b + 1))) i j
                    - entry (get [] g_ij a b) i j))).
Proof. apply metric_at_grid_point. Qed.

(** The last cell of a 2x2 metric field meets the hypotheses of X5. *)
Lemma metric_sample_is_cell_and_forward_difference_witness :
  _metric_at_coord (Dual (IZR (Z.of_nat 1)) 1, Dual (IZR (Z.of_nat 1)) 0)
    (tabulate2 2 2 (block_at (diagonal_metric (-1) 2)))
  = tabulate2 2 2 (fun i j =>
      Dual (entry (get [] (tabulate2 2 2 (block_at (diagonal_metric (-1) 2))) 1 1) i j)
           (1 * (entry (get [] (tabulate2 2 2 (block_at (diagonal_metric (-1) 2)))
                          (wrap 2 (Z.of_nat 1 + 1)) 1) i j
                 - entry (get [] (tabulate2 2 2 (block_at (diagonal_metric (-1) 2)))
                           1 1) i j)
            + 0 * (entry (get [] (tabulate2 2 2 (block_at (diagonal_metric (-1) 2)))
                            1 (wrap 2 (Z.of_nat 1 + 1))) i j
                   - entry (get [] (tabulate2 2 2 (block_at (diagonal_metric (-1) 2)))
                             1 1) i j))).
Proof.
  apply (metric_sample_is_cell_and_forward_difference 2 2
           (tabulate2 2 2 (block_at (diagonal_metric (-1) 2))) 1 1 1 0).
  - apply rectangular_tabulate2.
  - lia.
  - lia.
Defined.

(** X6.  For every field with at least two cells along each axis, the
    stress-energy tensor has 4x4 components, and every component other
    than [0,0] is exactly zero in every cell; the [0,0] component has
    imaginary part zero. *)
Theorem stress_energy_other_components_vanish n m (Psi : grid C) (kappa eta : R) :
  rectangular n m Psi -> (2 <= n)%nat -> (2 <= m)%nat ->
  exists T,
    calculate_informational_stress_energy Psi kappa eta = Ok T /\
    rectangular 4 4 T /\
    forall a b i j, (a < 4)%nat -> (b < 4)%nat -> (i < n)%nat -> (j < m)%nat ->
      snd (get (RtoC 0) (get [] T a b) i j) = 0 /\
      ((a, b) <> (0%nat, 0%nat) -> get (RtoC 0) (get [] T a b) i j = RtoC 0).
Proof.
  intros HPsi Hn Hm.
  destruct (stress_energy_cells n m Psi kappa eta HPsi Hn Hm)
    as (T & HT & Hrect & Hcells).
  exists T. split; [exact HT|]. split; [exact Hrect|].
  intros a b i j Ha Hb Hi Hj. rewrite Hcells by done.
  destruct a as [|a], b as [|b]; split; try reflexivity; intros Hab; done.
Qed.

(** The field [Psi_rows] meets the hypotheses of X6. *)
Lemma stress_energy_other_components_vanish_witness :
  exists T,
    calculate_informational_stress_energy Psi_rows 1 1 = Ok T /\
    rectangular 4 4 T /\
    forall a b i j, (a < 4)%nat -> (b < 4)%nat -> (i < 3)%nat -> (j < 2)%nat ->
      snd (get (RtoC 0) (get [] T a b) i j) = 0 /\
      ((a, b) <> (0%nat, 0%nat) -> get (RtoC 0) (get [] T a b) i j = RtoC 0).
Proof.
  apply (stress_energy_other_components_vanish 3 2 Psi_rows 1 1).
  - apply rectangular_Psi_rows.
  - lia.
  - lia.
Defined.

(** X7.  A field with fewer than two rows or fewer than two columns
    makes the stress-energy calculator raise ValueError: [jnp.gradient]
    needs two cells along every axis. *)
Theorem stress_energy_rejects_small_grids n m (Psi : grid C) (kappa eta : R) :
  rectangular n m Psi -> (n < 2)%nat \/ (m < 2)%nat ->
  calculate_informational_stress_energy Psi kappa eta = Raise ValueError.
Proof. apply stress_energy_small_grid. Qed.

(** A field of one row meets the hypotheses of X7. *)
Lemma stress_energy_rejects_small_grids_witness :
  calculate_informational_stress_energy Psi_1x2 1 1 = Raise ValueError.
Proof.
  apply (stress_energy_rejects_small_grids 1 2 Psi_1x2 1 1).
  - split; [reflexivity | repeat constructor].
  - left. lia.
Defined.



(** X9.  The assembled metric is conformally flat wherever the scale
    (rho_vac / rho)^alpha of the cell is finite: all off-diagonal
    components are zero there, the three spatial diagonal components
    equal the scale and the time component is its negative.  Where the
    scale is infinite or NaN, every off-diagonal component is NaN (the
    zeros of eta are multiplied by it), not zero. *)
Theorem metric_is_conformally_flat_where_finite
    (power : fval -> fval -> fval) n m (rho : grid fval)
    (alpha rho_vac : fval) (x y : nat) :
  rectangular n m rho -> (x < n)%nat -> (y < m)%nat ->
  let scale := power (SolverSdgIeee.fdiv rho_vac (get FNaN rho x y)) alpha in
  let g a b :=
    get FNaN
      (get [] (SolverSdgIeee.assemble_metric power rho alpha rho_vac) a b)
      x y in
  (forall s, scale = FFin s ->
     (forall a b, (a < 4)%nat -> (b < 4)%nat -> a <> b -> g a b = FFin 0) /\
     g 0%nat 0%nat = FFin (- s) /\
     g 1%nat 1%nat = FFin s /\ g 2%nat 2%nat = FFin s /\
     g 3%nat 3%nat = FFin s) /\
  ((forall s, scale <> FFin s) ->
   forall a b, (a < 4)%nat -> (b < 4)%nat -> a <> b -> g a b = FNaN).
Proof.
  intros Hrho Hx Hy scale g. subst g. cbv beta.
  assert (Hoff : forall a b, a <> b -> minkowski a b = 0).
  { intros a b Hab. unfold minkowski. now destruct (Nat.eqb_spec a b). }
  split.
  - intros s Hs. split; [|split; [|split; [|split]]].
    + intros a b Ha Hb Hab. rewrite (ieee_metric_entry power n m) by done.
      fold scale. rewrite Hs, (Hoff a b Hab). simpl. f_equal. ring.
    + rewrite (ieee_metric_entry power n m) by (done || lia).
      fold scale. rewrite Hs. unfold minkowski. cbn [Nat.eqb]. simpl.
      f_equal. ring.
    + rewrite (ieee_metric_entry power n m) by (done || lia).
      fold scale. rewrite Hs. unfold minkowski. cbn [Nat.eqb]. simpl.
      f_equal. ring.
    + rewrite (ieee_metric_entry power n m) by (done || lia).
      fold scale. rewrite Hs. unfold minkowski. cbn [Nat.eqb]. simpl.
      f_equal. ring.
    + rewrite (ieee_metric_entry power n m) by (done || lia).
      fold scale. rewrite Hs. unfold minkowski. cbn [Nat.eqb]. simpl.
      f_equal. ring.
  - intros Hs a b Ha Hb Hab. rewrite (ieee_metric_entry power n m) by done.
    fold scale. rewrite (Hoff a b Hab).
    destruct scale as [|neg|s] eqn:Hscale.
    + reflexivity.
    + simpl. destruct (Req_EM_T 0 0) as [_|Hne]; [reflexivity | now destruct Hne].
    + now destruct (Hs s).
Qed.

(** The density [rho_2x2] with rho_vac = 1 and alpha = 2 meets the
    hypotheses of X9; the scale of the cell (1, 0) is (1/3)^2. *)
Lemma metric_is_conformally_flat_where_finite_witness :
  get FNaN
    (get [] (SolverSdgIeee.assemble_metric finite_power
               (SolverSdgIeee.finite_grid rho_2x2) (FFin 2) (FFin 1)) 0 1)
    1 0 = FFin 0.
Proof.
  refine (proj1 (proj1 (metric_is_conformally_flat_where_finite finite_power
            2 2 (SolverSdgIeee.finite_grid rho_2x2) (FFin 2) (FFin 1) 1 0
            _ _ _) (Rpower (1 / 3) 2) _) 0%nat 1%nat _ _ _).
  - apply rectangular_2x2.
  - lia.
  - lia.
  - change (get FNaN (SolverSdgIeee.finite_grid rho_2x2) 1 0) with (FFin 3).
    rewrite fdiv_finite by lra. reflexivity.
  - lia.
  - lia.
  - lia.
Defined.



(** X11.  When no archive exists for the job, the validator writes a
    CRASH record: the configured failure code, the message
    "Artifact <path> not found.", a traceback, and no metric. *)
Theorem missing_archive_is_a_crash (cfg : settings)
    (analyze_spectral_fidelity : ndarray fval -> exception + fval)
    (np_var : ndarray fval -> fval) (format_exc : exception -> string)
    (uuid : string) (fs : filesystem) :
  data_files fs !! h5_path_of cfg uuid = None ->
  provenance_files
    (run_validation cfg analyze_spectral_fidelity np_var format_exc uuid fs)
  !! prov_path_of cfg uuid
  = Some (crash_record cfg format_exc uuid
            (Exception FileNotFoundError
               ("Artifact " +:+ h5_path_of cfg uuid +:+ " not found."))).
Proof.
  intros Hfile. rewrite run_validation_missing_archive by done.
  apply atomic_write_target.
Qed.

(** The empty file system meets the hypothesis of X11. *)
Lemma missing_archive_is_a_crash_witness :
  provenance_files
    (run_validation default_settings (fun _ => inr (FFin 0)) (fun _ => FFin 0)
       (fun _ => EmptyString) "job" empty_filesystem)
  !! prov_path_of default_settings "job"
  = Some (crash_record default_settings (fun _ => EmptyString) "job"
            (Exception FileNotFoundError
               ("Artifact " +:+ h5_path_of default_settings "job"
                +:+ " not found."))).
Proof.
  apply (missing_archive_is_a_crash default_settings (fun _ => inr (FFin 0))
           (fun _ => FFin 0) (fun _ => EmptyString) "job" empty_filesystem).
  reflexivity.
Defined.

(** X12.  When the archive exists but stores no final field, the
    validator writes a CRASH record with the configured failure code,
    the message "Corrupt HDF5: 'final_psi' missing." and no metric. *)
Theorem missing_field_is_a_crash (cfg : settings)
    (analyze_spectral_fidelity : ndarray fval -> exception + fval)
    (np_var : ndarray fval -> fval) (format_exc : exception -> string)
    (uuid : string) (fs : filesystem) (f : archive) :
  data_files fs !! h5_path_of cfg uuid = Some (Hdf5 f) ->
  final_psi f = None ->
  provenance_files
    (run_validation cfg analyze_spectral_fidelity np_var format_exc uuid fs)
  !! prov_path_of cfg uuid
  = Some (crash_record cfg format_exc uuid
            (Exception ValueError "Corrupt HDF5: 'final_psi' missing.")).
Proof.
  intros Hfile Hpsi. rewrite (run_validation_missing_field _ _ _ _ _ _ f) by done.
  apply atomic_write_target.
Qed.

(** An archive without a field meets the hypotheses of X12. *)
Lemma missing_field_is_a_crash_witness :
  provenance_files
    (run_validation default_settings (fun _ => inr (FFin 0)) (fun _ => FFin 0)
       (fun _ => EmptyString) "job" (filesystem_with fieldless_archive))
  !! prov_path_of default_settings "job"
  = Some (crash_record default_settings (fun _ => EmptyString) "job"
            (Exception ValueError "Corrupt HDF5: 'final_psi' missing.")).
Proof.
  apply (missing_field_is_a_crash default_settings (fun _ => inr (FFin 0))
           (fun _ => FFin 0) (fun _ => EmptyString) "job"
           (filesystem_with fieldless_archive) fieldless_archive).
  - apply lookup_singleton_eq.
  - reflexivity.
Defined.

(** X13.  A stored field with no cell at all is neither a divergence nor
    a pass: [np.max] of the empty density raises ValueError, and the
    validator writes a CRASH record for it. *)
Theorem empty_field_is_a_crash (cfg : settings)
    (analyze_spectral_fidelity : ndarray fval -> exception + fval)
    (np_var : ndarray fval -> fval) (format_exc : exception -> string)
    (uuid : string) (fs : filesystem) (f : archive)
    (psi : ndarray (fval * fval)) :
  data_files fs !! h5_path_of cfg uuid = Some (Hdf5 f) ->
  final_psi f = Some psi ->
  nd_data psi = [] ->
  exists e,
    exc_class e = ValueError /\
    provenance_files
      (run_validation cfg analyze_spectral_fidelity np_var format_exc uuid fs)
    !! prov_path_of cfg uuid
    = Some (crash_record cfg format_exc uuid e).
Proof.
  intros Hfile Hpsi Hempty.
  destruct (run_validation_empty_field cfg analyze_spectral_fidelity np_var
              format_exc uuid fs f psi Hfile Hpsi Hempty) as (e & He & ->).
  exists e. split; [exact He | apply atomic_write_target].
Qed.

(** An archive with a zero-size field meets the hypotheses of X13. *)
Lemma empty_field_is_a_crash_witness :
  exists e,
    exc_class e = ValueError /\
    provenance_files
      (run_validation default_settings (fun _ => inr (FFin 0)) (fun _ => FFin 0)
         (fun _ => EmptyString) "job" (filesystem_with empty_field_archive))
    !! prov_path_of default_settings "job"
    = Some (crash_record default_settings (fun _ => EmptyString) "job" e).
Proof.
  apply (empty_field_is_a_crash default_settings (fun _ => inr (FFin 0))
           (fun _ => FFin 0) (fun _ => EmptyString) "job"
           (filesystem_with empty_field_archive) empty_field_archive
           (NdArray [0%nat] [])).
  - apply lookup_singleton_eq.
  - reflexivity.
  - reflexivity.
Defined.

(** X14.  For a stored field with at least one cell whose density is
    finite and at most 1e6 everywhere, the validator runs the spectral
    analysis on the density: when the analysis returns a score, the
    record is PASS with sentinel 0 and both metrics (the stability metric
    is the variance of the stored metric tensor, or 0 when none is
    stored); when the analysis raises, the record is CRASH with no
    metric. *)
Theorem healthy_density_passes (cfg : settings)
    (analyze_spectral_fidelity : ndarray fval -> exception + fval)
    (np_var : ndarray fval -> fval) (format_exc : exception -> string)
    (uuid : string) (fs : filesystem) (f : archive)
    (psi : ndarray (fval * fval)) :
  data_files fs !! h5_path_of cfg uuid = Some (Hdf5 f) ->
  final_psi f = Some psi ->
  nd_data psi <> [] ->
  Forall (fun v => ~ divergent v) (map abs_sq (nd_data psi)) ->
  provenance_files
    (run_validation cfg analyze_spectral_fidelity np_var format_exc uuid fs)
  !! prov_path_of cfg uuid
  = Some
      match analyze_spectral_fidelity
              (NdArray (nd_shape psi) (map abs_sq (nd_data psi))) with
      | inr sse =>
          pass_record cfg uuid sse
            match final_g_mu_nu f with
            | Some g_tensor => np_var g_tensor
            | None => FFin 0
            end
      | inl e => crash_record cfg format_exc uuid e
      end.
Proof.
  intros Hfile Hpsi Hne Hfin.
  rewrite (run_validation_healthy _ _ _ _ _ _ f psi) by done.
  apply atomic_write_target.
Qed.

(** An archive whose field is the single value 1 meets the hypotheses of
    X14. *)
Lemma healthy_density_passes_witness :
  provenance_files
    (run_validation default_settings (fun _ => inr (FFin 0)) (fun _ => FFin 0)
       (fun _ => EmptyString) "job" (filesystem_with healthy_archive))
  !! prov_path_of default_settings "job"
  = Some (pass_record default_settings "job" (FFin 0) (FFin 0)).
Proof.
  apply (healthy_density_passes default_settings (fun _ => inr (FFin 0))
           (fun _ => FFin 0) (fun _ => EmptyString) "job"
           (filesystem_with healthy_archive) healthy_archive
           (NdArray [1%nat] [(FFin 1, FFin 0)])).
  - apply lookup_singleton_eq.
  - reflexivity.
  - discriminate.
  - constructor; [|constructor]. simpl.
    replace (1 * 1 + 0 * 0) with 1 by ring. rewrite sqrt_1. lra.
Defined.

(** X15.  [atomic_write_provenance] replaces the target and nothing
    else: afterwards the target holds the record, the temporary file is
    gone, every other provenance file is as before, and the data files
    are untouched. *)
Theorem atomic_write_replaces_only_the_target (filepath : string)
    (data : provenance) (fs : filesystem) (p : string) :
  p <> filepath -> p <> filepath +:+ ".tmp" ->
  let fs' := atomic_write_provenance filepath data fs in
  provenance_files fs' !! filepath = Some data /\
  provenance_files fs' !! (filepath +:+ ".tmp") = None /\
  provenance_files fs' !! p = provenance_files fs !! p /\
  data_files fs' = data_files fs.
Proof.
  intros Hp Ht fs'. subst fs'.
  split; [apply atomic_write_target|].
  split; [apply atomic_write_no_temp|].
  split; [now apply atomic_write_others | reflexivity].
Qed.

(** Another path than the target and its temporary file meets the
    hypotheses of X15. *)
Lemma atomic_write_replaces_only_the_target_witness :
  provenance_files
    (atomic_write_provenance "a.json" (divergence_record default_settings "job")
       empty_filesystem) !! "a.json"
  = Some (divergence_record default_settings "job").
Proof.
  refine (proj1 (atomic_write_replaces_only_the_target "a.json"
            (divergence_record default_settings "job") empty_filesystem
            "b.json" _ _)).
  - discriminate.
  - discriminate.
Defined.

(** X16.  Whatever the data directory holds (no archive, an unreadable
    one, no field, an empty, diverged or healthy field, an analysis that
    raises), a run of the validator leaves exactly one record under the
    provenance path of the job and no temporary file; the record names
    the job, its status and sentinel agree (PASS with 0, DIVERGENCE with
    the divergence code, CRASH with the failure code, an error message
    and no metric), and the data files are not modified. *)
Theorem validation_always_leaves_one_record (cfg : settings)
    (analyze_spectral_fidelity : ndarray fval -> exception + fval)
    (np_var : ndarray fval -> fval) (format_exc : exception -> string)
    (uuid : string) (fs : filesystem) :
  let fs' :=
    run_validation cfg analyze_spectral_fidelity np_var format_exc uuid fs in
  exists rec,
    provenance_files fs' !! prov_path_of cfg uuid = Some rec /\
    provenance_files fs' !! (prov_path_of cfg uuid +:+ ".tmp") = None /\
    data_files fs' = data_files fs /\
    job_uuid rec = uuid /\
    ((validation_status rec = "PASS" /\ sentinel_code rec = 0
      /\ error rec = None) \/
     (validation_status rec = "DIVERGENCE"
      /\ sentinel_code rec = SENTINEL_DIVERGENCE cfg /\ error rec = None) \/
     (validation_status rec = "CRASH"
      /\ sentinel_code rec = SENTINEL_FAILURE cfg /\ metrics rec = ∅
      /\ is_Some (error rec))).
Proof.
  intros fs'. subst fs'.
  destruct (run_validation_writes_once cfg analyze_spectral_fidelity np_var
              format_exc uuid fs) as (rec & Hrun & Hjob & Hstatus).
  exists rec. rewrite (Hrun fs eq_refl).
  split; [apply atomic_write_target|].
  split; [apply atomic_write_no_temp|].
  split; [reflexivity|]. split; [exact Hjob | exact Hstatus].
Qed.

(** X17.  Validating a job twice leaves the file system as validating
    it once does: the run reads only the data files, which it does not
    modify, and rewrites the same record. *)
Theorem validation_is_idempotent (cfg : settings)
    (analyze_spectral_fidelity : ndarray fval -> exception + fval)
    (np_var : ndarray fval -> fval) (format_exc : exception -> string)
    (uuid : string) (fs : filesystem) :
  run_validation cfg analyze_spectral_fidelity np_var format_exc uuid
    (run_validation cfg analyze_spectral_fidelity np_var format_exc uuid fs)
  = run_validation cfg analyze_spectral_fidelity np_var format_exc uuid fs.
Proof.
  destruct (run_validation_writes_once cfg analyze_spectral_fidelity np_var
              format_exc uuid fs) as (rec & Hrun & _).
  rewrite (Hrun fs eq_refl). rewrite Hrun by reflexivity.
  apply atomic_write_twice.
Qed.




